(** * Geo-YOLO-ToolKit: coordinate, annotation, normalisation and clipping logic

    A shallow embedding of the conversion scripts of the toolkit
    (tif_shp_to_yolo_png_converter.py, yolo2shp.py, draw_bboxes.py,
    tif2png.py, tif_to_png_squares.py, raster_clipper.py) and the
    properties their specification states about them.

    Numbers.  The scripts compute on Python and NumPy floats.  Here a finite
    float is an exact rational ([Q]); rounding is not modelled, so a
    property the specification states "within floating-point tolerance" is
    stated as equality of rationals ([==]).  A division whose divisor is
    zero is never silently given a value: Python's [/] raises
    [ZeroDivisionError], NumPy's element-wise [/] yields a non-finite sample
    (written [None]). *)

From Stdlib Require Import QArith Qround Qminmax ZArith List Bool Lia Lqa.
From Stdlib Require Import Sorted.
From Stdlib Require String.
Import String.StringSyntax.
Delimit Scope string_scope with string.
From Stdlib Require Ascii.
Import Ascii.AsciiSyntax.
Delimit Scope char_scope with char.
Import ListNotations.

Local Open Scope Q_scope.

(** ** Exceptions and fallible computations *)

Inductive exn : Type :=
| ZeroDivisionError
| TransformNotInvertibleError
| EmptyIntersectionError
| ValueError.

Inductive result (A : Type) : Type :=
| Ok (v : A)
| Raise (e : exn).

Arguments Ok {A} v.
Arguments Raise {A} e.

Definition bind {A B : Type} (m : result A) (k : A -> result B) : result B :=
  match m with
  | Ok v => k v
  | Raise e => Raise e
  end.

Declare Scope result_scope.
Delimit Scope result_scope with result.
Notation "x <- m ;; k" := (bind m (fun x => k))
  (at level 61, m at next level, right associativity) : result_scope.
Notation "' p <- m ;; k" := (bind m (fun x => let p := x in k))
  (at level 61, p pattern, m at next level, right associativity) : result_scope.
Local Open Scope result_scope.

(** Python's [x / n] for a float [x] and an int [n]. *)
Definition pydiv (x : Q) (n : Z) : result Q :=
  if (n =? 0)%Z then Raise ZeroDivisionError else Ok (x / inject_Z n).

(** ** Affine transforms *)

Module Affine.

(** Modelled from the spec: the AffineTransform value that the raster
    reader hands out as [src.transform] (its class is not part of the
    sources).  Six coefficients [(a, b, c, d, e, f)];
    [x = a*col + b*row + c], [y = d*col + e*row + f]. *)
Record t : Type := mk { a : Q; b : Q; c : Q; d : Q; e : Q; f : Q }.

(** Modelled from the spec: the determinant of "the 2x2 linear part
    [[a,b],[d,e]]", which "must be invertible (non-zero determinant)". *)
Definition determinant (T : t) : Q := a T * e T - b T * d T.

(** Modelled from the spec: [forward(col, row)], written
    [transform * (vx, vy)] in the scripts. *)
Definition apply (T : t) (p : Q * Q) : Q * Q :=
  let '(vx, vy) := p in
  (vx * a T + vy * b T + c T, vx * d T + vy * e T + f T).

(** Modelled from the spec: the inverse mapping, written [~transform] in
    the scripts; it "fails ... if the linear part is non-invertible" and
    is otherwise the exact inverse of the forward mapping. *)
Definition invert (T : t) : result t :=
  if Qeq_bool (determinant T) 0 then Raise TransformNotInvertibleError
  else
    let idet := 1 / determinant T in
    let ra := e T * idet in
    let rb := - b T * idet in
    let rd := - d T * idet in
    let re := a T * idet in
    Ok (mk ra rb (- c T * ra - f T * rb) rd re (- c T * rd - f T * re)).

(** No rotation or skew component. *)
Definition rotation_free (T : t) : Prop := b T == 0 /\ d T == 0.

(** North-up raster: columns grow eastwards, rows grow southwards. *)
Definition north_up (T : t) : Prop := rotation_free T /\ 0 < a T /\ e T < 0.

Definition eq (T U : t) : Prop :=
  a T == a U /\ b T == b U /\ c T == c U /\
  d T == d U /\ e T == e U /\ f T == f U.

End Affine.

Definition pt_eq (p q : Q * Q) : Prop := fst p == fst q /\ snd p == snd q.

(** ** Boxes, features and annotation records *)

(** A bounding box as the 4-tuple [(minx, miny, maxx, maxy)]: what
    [geometry.bounds] returns and what [box(...)] is built from. *)
Definition Box : Type := (Q * Q * Q * Q)%type.

Definition box_eq (B C : Box) : Prop :=
  let '(x0, y0, x1, y1) := B in
  let '(u0, v0, u1, v1) := C in
  x0 == u0 /\ y0 == v0 /\ x1 == u1 /\ y1 == v1.

(** A row of the input GeoDataFrame that has a geometry: the geometry's
    bounds and whatever attribute columns the shapefile carries.  Rows
    with a null geometry, on which [row['geometry'].bounds] raises, are
    outside this model. *)
Record Feature : Type := mkFeature {
  bounds : Box;
  attributes : list (String.string * Z)
}.

(** One line of a YOLO label file: [class x_center y_center width height]. *)
Record Annotation : Type := mkAnnotation {
  class_id : Z;
  x_center : Q;
  y_center : Q;
  width : Q;
  height : Q
}.

Definition ann_eq (r s : Annotation) : Prop :=
  class_id r = class_id s /\ x_center r == x_center s /\
  y_center r == y_center s /\ width r == width s /\ height r == height s.

(** A row of the output GeoDataFrame of yolo2shp. *)
Record Detection : Type := mkDetection {
  geometry : Box;
  det_class_id : Z
}.

(** ** Percentile stretch: the NumPy operations the three converters share *)

Definition Qltb (x y : Q) : bool := negb (Qle_bool y x).

Fixpoint insert_sorted (x : Q) (l : list Q) : list Q :=
  match l with
  | [] => [x]
  | y :: r => if Qle_bool x y then x :: l else y :: insert_sorted x r
  end.

Definition sort (l : list Q) : list Q := fold_right insert_sorted [] l.

(** Modelled from the spec: "the 2nd and 98th percentile" of the samples,
    [np.percentile(xs, q)] in the scripts (NumPy's, not defined in the
    sources): linear interpolation between the two closest ranks of the
    sorted samples. *)
Definition percentile (xs : list Q) (q : Q) : Q :=
  let s := sort xs in
  let n := Z.of_nat (length s) in
  let virtual_index := (inject_Z n - 1) * (q / 100) in
  let previous_index := Qfloor virtual_index in
  let next_index := Z.min (previous_index + 1) (n - 1) in
  let gamma := virtual_index - inject_Z previous_index in
  let lo := nth (Z.to_nat previous_index) s 0 in
  let hi := nth (Z.to_nat next_index) s 0 in
  lo + (hi - lo) * gamma.

(** [np.clip(x, lo, hi)] on one sample. *)
Definition clip (lo hi x : Q) : Q := Qmin (Qmax x lo) hi.

(** Element-wise float division: a zero divisor yields a non-finite sample
    (NaN for 0/0, an infinity otherwise), written [None]. *)
Definition npdiv (x y : Q) : option Q :=
  if Qeq_bool y 0 then None else Some (x / y).

(** [(clip(x, p2, p98) - p2) / (p98 - p2) * 255] on one sample. *)
Definition stretch (p2 p98 x : Q) : option Q :=
  option_map (fun v => v * 255) (npdiv (clip p2 p98 x - p2) (p98 - p2)).

(** Truncation towards zero. *)
Definition Qtrunc (x : Q) : Z := if Qle_bool 0 x then Qfloor x else Qceiling x.

(** [astype(np.uint8)] on one sample: the conversion is defined when the
    truncated value is representable, and unspecified ([None]) on NaN, on an
    infinity and out of range. *)
Definition to_uint8 (x : option Q) : option Z :=
  match x with
  | Some v =>
      let z := Qtrunc v in
      if ((0 <=? z) && (z <=? 255))%Z then Some z else None
  | None => None
  end.

(** A band is the sequence of its samples (row-major); every operation of
    the converters on a band is element-wise or ignores the order. *)
Definition Band : Type := list Q.

(** The 8-bit array handed to [Image.fromarray]: one channel per stacked
    band, channels in the order of [np.dstack]'s arguments. *)
Definition Image8 : Type := list (list (option Z)).

(** ** tif_shp_to_yolo_png_converter.py *)

Module tif_shp_to_yolo_png_converter.

Definition scale_band (band : Band) : list (option Q) :=
  let p2 := percentile band 2 in
  let p98 := percentile band 98 in
  map (stretch p2 p98) band.

(** [bands] is [[src.read(i) for i in (1, 2, 3)]]; the result is the
    array that is saved. *)
Definition convert_tif_to_png (bands : list Band) : Image8 :=
  let scaled_bands := map scale_band bands in
  map (map to_uint8) scaled_bands.

Definition convert_geo_to_pixel_coords (geo_coords : Box)
    (transform : Affine.t) : result (Q * Q * Q * Q) :=
  let '(minx, miny, maxx, maxy) := geo_coords in
  inv1 <- Affine.invert transform ;;
  let '(px_minx, px_miny) := Affine.apply inv1 (minx, miny) in
  inv2 <- Affine.invert transform ;;
  let '(px_maxx, px_maxy) := Affine.apply inv2 (maxx, maxy) in
  Ok (px_minx, px_maxy, px_maxx, px_miny).

(** The body of the loop of [shp_to_yolo], up to the text of the line. *)
Definition yolo_line (row : Feature) (transform : Affine.t)
    (img_width img_height : Z) : result Annotation :=
  let geo_bounds := bounds row in
  '(px_minx, px_miny, px_maxx, px_maxy) <-
     convert_geo_to_pixel_coords geo_bounds transform ;;
  let x_center := (px_minx + px_maxx) / 2 in
  let y_center := (px_miny + px_maxy) / 2 in
  let width := px_maxx - px_minx in
  let height := px_maxy - px_miny in
  x_center_norm <- pydiv x_center img_width ;;
  y_center_norm <- pydiv y_center img_height ;;
  width_norm <- pydiv width img_width ;;
  height_norm <- pydiv height img_height ;;
  Ok (mkAnnotation 0 x_center_norm y_center_norm width_norm height_norm).

(** The loop over the rows: [file] is the list of lines written so far.
    An exception leaves the lines already written in the file. *)
Fixpoint write_rows (rows : list Feature) (transform : Affine.t)
    (img_width img_height : Z) (file : list Annotation)
  : list Annotation * result unit :=
  match rows with
  | [] => (file, Ok tt)
  | row :: rest =>
      match yolo_line row transform img_width img_height with
      | Ok line =>
          write_rows rest transform img_width img_height (file ++ [line])
      | Raise e => (file, Raise e)
      end
  end.

(** [gdf] is the feature table read from the shapefile; [transform],
    [img_width] and [img_height] come from the raster.  The result is the
    content of the label file and the way the call ended. *)
Definition shp_to_yolo (gdf : list Feature) (transform : Affine.t)
    (img_width img_height : Z) : list Annotation * result unit :=
  write_rows gdf transform img_width img_height [].

End tif_shp_to_yolo_png_converter.

(** ** yolo2shp.py *)

Module yolo2shp.

(** The body of the loop of [detections_to_shp]: the arguments of
    [box(...)] for one detection row. *)
Definition detection_geom (row : Annotation) (transform : Affine.t)
    (src_width src_height : Z) : Box :=
  let x_center := x_center row in
  let y_center := y_center row in
  let width := width row in
  let height := height row in
  let x1 := (x_center - width / 2) * inject_Z src_width in
  let y1 := (y_center - height / 2) * inject_Z src_height in
  let x2 := (x_center + width / 2) * inject_Z src_width in
  let y2 := (y_center + height / 2) * inject_Z src_height in
  let top_left := Affine.apply transform (x1, y1) in
  let bottom_right := Affine.apply transform (x2, y2) in
  (fst top_left, snd bottom_right, fst bottom_right, snd top_left).

(** [detections] is the table read from the detection file; the result
    is the table written to the shapefile. *)
Definition detections_to_shp (detections : list Annotation)
    (transform : Affine.t) (src_width src_height : Z) : list Detection :=
  let geoms :=
    map (fun row => detection_geom row transform src_width src_height)
        detections in
  map (fun gc => mkDetection (fst gc) (snd gc))
      (combine geoms (map class_id detections)).

End yolo2shp.

(** ** draw_bboxes.py *)

Module draw_bboxes.

(** The rectangle [[left, top, right, bottom]] drawn for one label line
    on an image of size [width] x [height]. *)
Definition draw_rectangle (line : Annotation) (width height : Z)
  : Q * Q * Q * Q :=
  let '(mkAnnotation class_id x_center y_center w h) := line in
  let x_center := x_center * inject_Z width in
  let y_center := y_center * inject_Z height in
  let w := w * inject_Z width in
  let h := h * inject_Z height in
  let left := x_center - (w / 2) in
  let top := y_center - (h / 2) in
  let right := x_center + (w / 2) in
  let bottom := y_center + (h / 2) in
  (left, top, right, bottom).

(** [draw.rectangle([left, top, right, bottom], ...)], a call into
    Pillow, which refuses coordinates [[x0, y0, x1, y1]] with [x1 < x0]
    or [y1 < y0] with a [ValueError]. *)
Definition rectangle (xy : Q * Q * Q * Q) : result (Q * Q * Q * Q) :=
  let '(x0, y0, x1, y1) := xy in
  if Qltb x1 x0 then Raise ValueError
  else if Qltb y1 y0 then Raise ValueError
  else Ok xy.

(** The loop over the label lines, on an image of size [width] x
    [height]; the result is the list of the rectangles drawn on the image
    that is saved.  When [draw.rectangle] raises, [img.save] is not
    reached and nothing is saved. *)
Fixpoint draw_bounding_boxes (labels : list Annotation)
    (width height : Z) : result (list (Q * Q * Q * Q)) :=
  match labels with
  | [] => Ok []
  | line :: rest =>
      rect <- rectangle (draw_rectangle line width height) ;;
      rects <- draw_bounding_boxes rest width height ;;
      Ok (rect :: rects)
  end.

End draw_bboxes.

(** ** tif2png.py (tif_to_png_squares.py carries the same function) *)

Module tif2png.

(** [-3.40282e+38] *)
Definition nodata_threshold : Q :=
  (-340282000000000000000000000000000000000 # 1).

(** [band > -3.40282e+38] on one sample. *)
Definition valid (x : Q) : bool := Qltb nodata_threshold x.

(** [band[~valid_mask] = 0] on one sample. *)
Definition blacken (v : bool) (x : option Q) : option Q :=
  if v then x else Some 0.

(** The body of the loop over the bands; [None] is the [continue]. *)
Definition scale_band (band : Band) : option (list (option Q)) :=
  let valid_mask := map valid band in
  if existsb (fun v => v) valid_mask then
    let p2 := percentile (filter valid band) 2 in
    let p98 := percentile (filter valid band) 98 in
    let band := map (stretch p2 p98) band in
    let band :=
      map (fun vx => blacken (fst vx) (snd vx)) (combine valid_mask band) in
    Some band
  else None.

Fixpoint scale_bands (bands : list Band) : list (list (option Q)) :=
  match bands with
  | [] => []
  | band :: rest =>
      match scale_band band with
      | Some scaled => scaled :: scale_bands rest
      | None => scale_bands rest
      end
  end.

(** [Image.fromarray(array, 'RGB')] on the stack of 8-bit channels, a
    call into Pillow: an RGB image takes three bytes a pixel, and a stack
    of one or two channels holds too few, which Pillow refuses with a
    [ValueError].  The script reads three bands, so that a stack never has
    more than three channels. *)
Definition fromarray_RGB (array : Image8) : result Image8 :=
  if (length array <? 3)%nat then Raise ValueError else Ok array.

(** [bands] is [[src.read(i) for i in (1, 2, 3)]]; the result is the
    image that is saved, [Ok None] when the function returns with nothing
    saved; when [Image.fromarray] raises, [image.save] is not reached and
    nothing is saved either. *)
Definition convert_tif_to_png (bands : list Band)
  : result (option Image8) :=
  let scaled_bands := scale_bands bands in
  match scaled_bands with
  | [] => Ok None
  | _ :: _ =>
      let array := map (map to_uint8) scaled_bands in
      image <- fromarray_RGB array ;;
      Ok (Some image)
  end.

End tif2png.

(** ** raster_clipper.py *)

Module raster_clipper.

(** A GeoJSON position: [x], [y] and whatever further ordinates (an
    elevation) follow them. *)
Record Position : Type := mkPosition {
  pos_x : Q;
  pos_y : Q;
  pos_rest : list Q
}.

(** The GeoJSON mapping of a Polygon, the geometry the clipper is given:
    [coordinates] is the list of its rings, each a list of positions, and
    [None] when the mapping has no such key.  Mappings of other kinds of
    geometry, whose coordinates nest differently, are outside this
    model. *)
Record GeoJSON : Type := mkGeoJSON {
  gtype : String.string;
  coordinates : option (list (list Position))
}.

(** The profile of a raster dataset ([src.meta]). *)
Record Meta : Type := mkMeta {
  driver : String.string;
  crs : String.string;
  nodata : option Q;
  count : Z;
  height : Z;
  width : Z;
  transform : Affine.t
}.

(** Band data as nested sequences: band, row, column. *)
Definition Image : Type := list (list (list Q)).

Record Dataset : Type := mkDataset {
  meta : Meta;
  data : Image
}.

(** [out_image.shape[1]] and [out_image.shape[2]] *)
Definition shape1 (img : Image) : Z := Z.of_nat (length (hd [] img)).
Definition shape2 (img : Image) : Z :=
  Z.of_nat (length (hd [] (hd [] img))).

(** On the mapping of a Polygon: every position of every ring is cut
    down to its [x] and [y]. *)
Definition make_2d (geojson : GeoJSON) : GeoJSON :=
  match coordinates geojson with
  | Some rings =>
      mkGeoJSON (gtype geojson)
        (Some (map (map (fun p => mkPosition (pos_x p) (pos_y p) [])) rings))
  | None => geojson
  end.

Section Clip.

(** [rasterio.mask.mask(src, shapes, crop=...)]: imported by the
    script, not defined by it.  It returns the masked image and its
    transform, or raises. *)
Variable mask :
  Dataset -> list GeoJSON -> bool -> result (Image * Affine.t).

(** [polygon] is the clip geometry through its GeoJSON [mapping]; the
    result is the dataset written to [output_path], or the exception
    that left the call. *)
Definition clip_raster_with_polygon (src : Dataset) (polygon : GeoJSON)
  : result Dataset :=
  let geojson_polygon := polygon in
  let geojson_polygon_2d := make_2d geojson_polygon in
  match mask src [geojson_polygon_2d] true with
  | Raise e => Raise e
  | Ok (out_image, out_transform) =>
      let out_meta :=
        mkMeta "GTiff"%string (crs (meta src)) (nodata (meta src))
               (count (meta src)) (shape1 out_image) (shape2 out_image)
               out_transform in
      Ok (mkDataset out_meta out_image)
  end.

End Clip.

End raster_clipper.

(** ** The masking routine, from the specification of the clipper *)

Module mask_model.

Import raster_clipper.

(** Modelled from the spec: the pixel window of step 3 of the clipper
    ([mask] itself is imported by raster_clipper.py, not defined in the
    sources): columns [left, right) and rows [top, bottom). *)
Record Window : Type := mkWindow {
  left : Z;
  top : Z;
  right : Z;
  bottom : Z
}.

(** Modelled from the spec: the rings of a polygon mapped to pixel space
    through the inverse transform. *)
Definition pixel_rings (inv : Affine.t) (shape : GeoJSON)
  : list (list (Q * Q)) :=
  match coordinates shape with
  | Some rings =>
      map (map (fun p => Affine.apply inv (pos_x p, pos_y p))) rings
  | None => []
  end.

Definition Qminimum (x : Q) (l : list Q) : Q := fold_left Qmin l x.
Definition Qmaximum (x : Q) (l : list Q) : Q := fold_left Qmax l x.

(** Modelled from the spec: "the tight pixel-space bounding window
    covering the polygon", restricted to the raster's [w] x [h] grid; when
    nothing of the window is left on the grid there is no raster to
    return, and "the operation fails with EmptyIntersectionError rather
    than returning a zero-size raster silently". *)
Definition bounding_window (w h : Z) (pts : list (Q * Q)) : result Window :=
  match pts with
  | [] => Raise EmptyIntersectionError
  | p :: rest =>
      let l := Z.max 0 (Qfloor (Qminimum (fst p) (map fst rest))) in
      let r := Z.min w (Qceiling (Qmaximum (fst p) (map fst rest))) in
      let t := Z.max 0 (Qfloor (Qminimum (snd p) (map snd rest))) in
      let b := Z.min h (Qceiling (Qmaximum (snd p) (map snd rest))) in
      if ((l <? r) && (t <? b))%Z then Ok (mkWindow l t r b)
      else Raise EmptyIntersectionError
  end.

(** Modelled from the spec: "standard point-in-polygon rasterization";
    one edge of the crossing-number test, for the ray from [p] towards
    growing [x]. *)
Definition crosses (p vi vj : Q * Q) : bool :=
  let '(x, y) := p in
  let '(xi, yi) := vi in
  let '(xj, yj) := vj in
  negb (Bool.eqb (Qltb y yi) (Qltb y yj))
  && Qltb x ((xj - xi) * (y - yi) / (yj - yi) + xi).

(** Modelled from the spec: parity of the crossings along a closed ring
    (first vertex repeated as last). *)
Fixpoint crossings (p : Q * Q) (ring : list (Q * Q)) : bool :=
  match ring with
  | vi :: (vj :: _) as rest => xorb (crosses p vi vj) (crossings p rest)
  | _ => false
  end.

(** Modelled from the spec: a point is inside a polygon when it is inside
    an odd number of its rings (the outer ring, not a hole). *)
Definition inside (rings : list (list (Q * Q))) (p : Q * Q) : bool :=
  fold_right (fun ring acc => xorb (crossings p ring) acc) false rings.

(** Modelled from the spec: the centre of the cell at column [c], row
    [r]. *)
Definition cell_center (c r : nat) : Q * Q :=
  (inject_Z (Z.of_nat c) + (1 # 2), inject_Z (Z.of_nat r) + (1 # 2)).

(** Modelled from the spec: step 4, "crop every band to that window and
    zero out cells outside the mask but inside the window". *)
Definition crop_band (keep : nat -> nat -> bool) (win : Window)
    (band : list (list Q)) : list (list Q) :=
  let rows :=
    seq (Z.to_nat (top win)) (Z.to_nat (bottom win - top win)) in
  let cols :=
    seq (Z.to_nat (left win)) (Z.to_nat (right win - left win)) in
  map (fun r =>
         map (fun c => if keep c r then nth c (nth r band []) 0 else 0)
             cols)
      rows.

(** Modelled from the spec: step 5, "same linear part (a,b,d,e) as the
    source, translated offset (c,f) so that pixel (0,0) of the crop maps
    to the same geographic point as pixel (windowLeft, windowTop) of the
    source". *)
Definition window_transform (T : Affine.t) (win : Window) : Affine.t :=
  let '(x, y) :=
    Affine.apply T (inject_Z (left win), inject_Z (top win)) in
  Affine.mk (Affine.a T) (Affine.b T) x (Affine.d T) (Affine.e T) y.

(** Modelled from the spec: the edges of a closed ring, each from a
    vertex to the next one. *)
Fixpoint edges (ring : list (Q * Q)) : list ((Q * Q) * (Q * Q)) :=
  match ring with
  | vi :: (vj :: _) as rest => (vi, vj) :: edges rest
  | _ => []
  end.

(** Modelled from the spec: "the raster extent", in pixel space the
    closed rectangle [[0, w] x [0, h]]. *)
Definition in_extentb (w h : Z) (p : Q * Q) : bool :=
  Qle_bool 0 (fst p) && Qle_bool (fst p) (inject_Z w)
  && Qle_bool 0 (snd p) && Qle_bool (snd p) (inject_Z h).

(** The edge from [va] to [vb] crosses the vertical line [x = x0] at an
    ordinate between 0 and [h]. *)
Definition cuts_vertical (h : Z) (x0 : Q) (va vb : Q * Q) : bool :=
  let '(xa, ya) := va in
  let '(xb, yb) := vb in
  if Qeq_bool xa xb then false
  else
    let t := (x0 - xa) / (xb - xa) in
    let y := ya + t * (yb - ya) in
    Qle_bool 0 t && Qle_bool t 1 && Qle_bool 0 y && Qle_bool y (inject_Z h).

(** The edge from [va] to [vb] crosses the horizontal line [y = y0] at an
    abscissa between 0 and [w]. *)
Definition cuts_horizontal (w : Z) (y0 : Q) (va vb : Q * Q) : bool :=
  let '(xa, ya) := va in
  let '(xb, yb) := vb in
  if Qeq_bool ya yb then false
  else
    let t := (y0 - ya) / (yb - ya) in
    let x := xa + t * (xb - xa) in
    Qle_bool 0 t && Qle_bool t 1 && Qle_bool 0 x && Qle_bool x (inject_Z w).

(** An edge meets the extent when one of its ends lies in it or when it
    crosses one of its four sides. *)
Definition edge_meets_extent (w h : Z) (edge : (Q * Q) * (Q * Q)) : bool :=
  let '(va, vb) := edge in
  in_extentb w h va || in_extentb w h vb
  || cuts_vertical h 0 va vb || cuts_vertical h (inject_Z w) va vb
  || cuts_horizontal w 0 va vb || cuts_horizontal w (inject_Z h) va vb.

(** Modelled from the spec: whether "the polygon [intersects] the raster
    extent": an edge of the polygon meets the extent, or, no edge meeting
    it, the extent lies wholly inside the polygon, and its corner
    [(0, 0)] with it. *)
Definition meets_extent (w h : Z) (rings : list (list (Q * Q))) : bool :=
  existsb (fun ring => existsb (edge_meets_extent w h) (edges ring)) rings
  || inside rings (0, 0).

(** Modelled from the spec: the window of a clip.  With [crop], "if the
    polygon does not intersect the raster extent at all, the operation
    fails with EmptyIntersectionError", and otherwise the window is the
    bounding window of step 3; without [crop] the whole grid is kept. *)
Definition clip_window (src : Dataset) (shapes_px : list (list (list (Q * Q))))
    (crop : bool) : result Window :=
  if crop then
    if existsb (meets_extent (width (meta src)) (height (meta src)))
               shapes_px
    then
      bounding_window (width (meta src)) (height (meta src))
                      (concat (concat shapes_px))
    else Raise EmptyIntersectionError
  else Ok (mkWindow 0 0 (width (meta src)) (height (meta src))).

(** Modelled from the spec: section 4.3, steps 3 to 5 and the failure
    clause, for the [mask] that raster_clipper.py imports. *)
Definition mask (src : Dataset) (shapes : list GeoJSON) (crop : bool)
  : result (Image * Affine.t) :=
  inv <- Affine.invert (transform (meta src)) ;;
  let shapes_px := map (pixel_rings inv) shapes in
  win <- clip_window src shapes_px crop ;;
  let keep c r :=
    existsb (fun rings => inside rings (cell_center c r)) shapes_px in
  Ok (map (crop_band keep win) (data src),
      window_transform (transform (meta src)) win).

(** The corners of the raster's extent as a closed polygon. *)
Definition extent_polygon (src : Dataset) : GeoJSON :=
  let T := transform (meta src) in
  let w := inject_Z (width (meta src)) in
  let h := inject_Z (height (meta src)) in
  let corner c r :=
    let '(x, y) := Affine.apply T (c, r) in mkPosition x y [] in
  mkGeoJSON "Polygon"%string
    (Some [[corner 0 0; corner w 0; corner w h; corner 0 h; corner 0 0]]).

(** The points of the raster's extent, in pixel space. *)
Definition in_extent (w h : Z) (p : Q * Q) : Prop :=
  0 <= fst p <= inject_Z w /\ 0 <= snd p <= inject_Z h.

(** The points of the segment from [va] to [vb]. *)
Definition on_segment (p va vb : Q * Q) : Prop :=
  exists t,
    0 <= t <= 1 /\
    fst p == fst va + t * (fst vb - fst va) /\
    snd p == snd va + t * (snd vb - snd va).

(** The points of a polygon: those inside it and those on an edge of one
    of its rings. *)
Definition in_polygon (rings : list (list (Q * Q))) (p : Q * Q) : Prop :=
  inside rings p = true \/
  exists ring va vb,
    In ring rings /\ In (va, vb) (edges ring) /\ on_segment p va vb.

(** The polygon does not intersect the raster's extent at all: mapped to
    the pixel space of the raster, it has no point in common with the
    rectangle of the grid. *)
Definition disjoint_from_extent (src : Dataset) (polygon : GeoJSON)
  : Prop :=
  exists inv,
    Affine.invert (transform (meta src)) = Ok inv /\
    forall p,
      in_extent (width (meta src)) (height (meta src)) p ->
      ~ in_polygon (pixel_rings inv polygon) p.

(** The invariant of a raster: positive sizes, an invertible transform, at
    least one band, and every band of exactly [height] rows of [width]
    samples. *)
Definition well_formed (src : Dataset) : Prop :=
  (0 < width (meta src))%Z /\
  (0 < height (meta src))%Z /\
  ~ Affine.determinant (transform (meta src)) == 0 /\
  data src <> [] /\
  Forall (fun band =>
            length band = Z.to_nat (height (meta src)) /\
            Forall (fun row => length row = Z.to_nat (width (meta src)))
                   band)
         (data src).

End mask_model.

(** The pixel-space bounding box as the specification words it: "map all
    four corners of the geographic box through [transform.inverse] to pixel
    space" and take "the min/max over all four mapped corners"; the result
    is [(min column, min row, max column, max row)]. *)
Definition four_corner_pixel_box (geo_coords : Box) (transform : Affine.t)
  : result (Q * Q * Q * Q) :=
  let '(minx, miny, maxx, maxy) := geo_coords in
  inv <- Affine.invert transform ;;
  let p1 := Affine.apply inv (minx, miny) in
  let p2 := Affine.apply inv (minx, maxy) in
  let p3 := Affine.apply inv (maxx, miny) in
  let p4 := Affine.apply inv (maxx, maxy) in
  Ok (Qmin (Qmin (fst p1) (fst p2)) (Qmin (fst p3) (fst p4)),
      Qmin (Qmin (snd p1) (snd p2)) (Qmin (snd p3) (snd p4)),
      Qmax (Qmax (fst p1) (fst p2)) (Qmax (fst p3) (fst p4)),
      Qmax (Qmax (snd p1) (snd p2)) (Qmax (snd p3) (snd p4))).

(** The five vertices of a ring that is, up to [==], the closed rectangle
    (0,0), (w,0), (w,h), (0,h), (0,0). *)
Definition rectangle_ring (w h : Q) (q0 q1 q2 q3 q4 : Q * Q) : Prop :=
  pt_eq q0 (0, 0) /\ pt_eq q1 (w, 0) /\ pt_eq q2 (w, h) /\
  pt_eq q3 (0, h) /\ pt_eq q4 (0, 0).

(** ** Sample inputs *)

Module Examples.

(** The transform [(1, 0, 0, 0, 1, 0)]: pixel and geographic units agree. *)
Definition identity_like : Affine.t := Affine.mk 1 0 0 0 1 0.

(** A north-up raster: 2 units per pixel, origin at (100, 200). *)
Definition north_up_2 : Affine.t := Affine.mk 2 0 100 0 (-2) 200.

(** A transform with rotation and skew. *)
Definition skewed : Affine.t := Affine.mk 1 1 0 1 (-1) 0.


Definition feature_in_north_up : Feature :=
  mkFeature (102, 196, 106, 200) [("class"%string, 3%Z)].

(** The label line [-1 0.5 0.5 0.2 0.2]. *)
Definition negative_class_line : Annotation :=
  mkAnnotation (-1) 0.5 0.5 0.2 0.2.

(** The label line [0 0.5 0.5 0 0.2]. *)
Definition zero_width_line : Annotation :=
  mkAnnotation 0 0.5 0.5 0 0.2.

(** The label line [0 0.5 0.5 -0.2 0.2]. *)
Definition negative_width_line : Annotation :=
  mkAnnotation 0 0.5 0.5 (-0.2) 0.2.

(** The lowest float32, the usual nodata fill; it is below the
    threshold of [tif2png]. *)
Definition sentinel : Q := (-340282346638528859811704183484516925440 # 1).

Definition band_with_nodata : Band := [sentinel; 0; 50; 100].

(** A band whose valid samples are all equal. *)
Definition constant_band : Band := [sentinel; 5; 5; 5].

Definition invalid_band : Band := [sentinel; sentinel; sentinel; sentinel].

(** A one-band 4 x 3 raster on the north-up transform. *)
Definition small_raster : raster_clipper.Dataset :=
  raster_clipper.mkDataset
    (raster_clipper.mkMeta "GTiff"%string "EPSG:32723"%string None 1 3 4
                           north_up_2)
    [[[1; 2; 3; 4]; [5; 6; 7; 8]; [9; 10; 11; 12]]].

(** The axis-aligned square [x0,y0]-[x1,y1], with an elevation on every
    vertex. *)
Definition square (x0 y0 x1 y1 : Q) : raster_clipper.GeoJSON :=
  raster_clipper.mkGeoJSON "Polygon"%string
    (Some [[raster_clipper.mkPosition x0 y0 [7];
            raster_clipper.mkPosition x1 y0 [7];
            raster_clipper.mkPosition x1 y1 [7];
            raster_clipper.mkPosition x0 y1 [7];
            raster_clipper.mkPosition x0 y0 [7]]]).

(** The triangle (90,192), (108,210), (90,210). *)
Definition triangle : raster_clipper.GeoJSON :=
  raster_clipper.mkGeoJSON "Polygon"%string
    (Some [[raster_clipper.mkPosition 90 192 [];
            raster_clipper.mkPosition 108 210 [];
            raster_clipper.mkPosition 90 210 [];
            raster_clipper.mkPosition 90 192 []]]).

End Examples.

(** ** tif_to_png_squares.py *)

Module tif_to_png_squares.

(** Python's [a // b] on ints: the floor of the quotient, for either sign
    of the divisor. *)
Definition floordiv (a b : Z) : result Z :=
  if (b =? 0)%Z then Raise ZeroDivisionError else Ok (a / b)%Z.

(** [range(n)] *)
Definition range (n : Z) : list Z := map Z.of_nat (seq 0 (Z.to_nat n)).

(** One saved square: the indices [y] and [x] of its file name
    [square_{y}_{x}.png] and the box [(left, upper, right, lower)] given to
    [image.crop]. *)
Record Square : Type := mkSquare {
  sq_y : Z;
  sq_x : Z;
  sq_box : Z * Z * Z * Z
}.

(** [width] and [height] are [image.size]; the result is the sequence of
    squares saved, in the order of the two loops. *)
Definition split_png_to_squares (width height square_size : Z)
  : result (list Square) :=
  num_rows <- floordiv height square_size ;;
  num_cols <- floordiv width square_size ;;
  Ok (flat_map
        (fun y =>
           map (fun x =>
                  let left := (x * square_size)%Z in
                  let upper := (y * square_size)%Z in
                  let right := ((x + 1) * square_size)%Z in
                  let lower := ((y + 1) * square_size)%Z in
                  mkSquare y x (left, upper, right, lower))
               (range num_cols))
        (range num_rows)).

End tif_to_png_squares.

(** ** raster_clipper.py: the loop over the squares *)

Module raster_clipper_main.

Import raster_clipper.

(** A file written by [main]. *)
Inductive Written : Type :=
| WroteRaster (index : nat) (dataset : Dataset)
| WroteShapefile (index : nat) (bboxes : list GeoJSON).

(** The [index] in the name [square_{index}.tif] or [square_{index}.shp]. *)
Definition written_index (f : Written) : nat :=
  match f with
  | WroteRaster index _ => index
  | WroteShapefile index _ => index
  end.

Section Main.

(** [rasterio.mask.mask], as for [clip_raster_with_polygon]. *)
Variable mask : Dataset -> list GeoJSON -> bool -> result (Image * Affine.t).

(** [gdf.to_crs(raster_crs)] on the geometries of a table. *)
Variable to_crs : String.string -> list GeoJSON -> list GeoJSON.

(** [bbox.intersects(square.geometry)] on one row of [bbox_gdf]. *)
Variable intersects : GeoJSON -> GeoJSON -> bool.

(** [intersecting_bboxes.to_file(...)]: it writes the table or raises. *)
Variable to_file : list GeoJSON -> result unit.

Definition reproject_shapefile_to_match_raster (shapefile_gdf : list GeoJSON)
    (raster_crs : String.string) : list GeoJSON :=
  to_crs raster_crs shapefile_gdf.

(** The loop of [main] over [squares_gdf.iterrows()]; [written] is what has
    been written so far. *)
Fixpoint process_squares (src : Dataset) (bbox_gdf : list GeoJSON)
    (rows : list (nat * GeoJSON)) (written : list Written)
  : list Written * result unit :=
  match rows with
  | [] => (written, Ok tt)
  | (index, square) :: rest =>
      match clip_raster_with_polygon mask src square with
      | Raise e => (written, Raise e)
      | Ok dataset =>
          let written := written ++ [WroteRaster index dataset] in
          let intersecting_bboxes :=
            filter (fun bbox => intersects bbox square) bbox_gdf in
          match to_file intersecting_bboxes with
          | Raise e => (written, Raise e)
          | Ok _ =>
              process_squares src bbox_gdf rest
                (written ++ [WroteShapefile index intersecting_bboxes])
          end
      end
  end.

(** [src] is the raster, [squares_gdf] and [bbox_gdf] the geometries read
    from the two shapefiles; the result is the files written, in order, and
    the way the call ended. *)
Definition main (src : Dataset) (squares_gdf bbox_gdf : list GeoJSON)
  : list Written * result unit :=
  let raster_crs := crs (meta src) in
  let squares_gdf :=
    reproject_shapefile_to_match_raster squares_gdf raster_crs in
  let bbox_gdf := reproject_shapefile_to_match_raster bbox_gdf raster_crs in
  process_squares src bbox_gdf
    (combine (seq 0 (length squares_gdf)) squares_gdf) [].

(** The two files that the loop writes for a square whose clip returns:
    the clipped raster, then the bounding boxes that intersect the square,
    in the order of [bbox_gdf]. *)
Definition square_files (src : Dataset) (bbox_gdf : list GeoJSON)
    (row : nat * GeoJSON) : list Written :=
  match clip_raster_with_polygon mask src (snd row) with
  | Ok dataset =>
      [WroteRaster (fst row) dataset;
       WroteShapefile (fst row)
         (filter (fun bbox => intersects bbox (snd row)) bbox_gdf)]
  | Raise _ => []
  end.

(** A square is processed without an exception. *)
Definition square_ok (src : Dataset) (bbox_gdf : list GeoJSON)
    (square : GeoJSON) : Prop :=
  (exists dataset, clip_raster_with_polygon mask src square = Ok dataset) /\
  to_file (filter (fun bbox => intersects bbox square) bbox_gdf) = Ok tt.

End Main.

End raster_clipper_main.

(** ** group_bbox_creator.py *)

Module group_bbox_creator.

(** A row of the table: the value of the group field, [None] when it is
    null, and the bounds of the geometry. *)
Record Row : Type := mkRow {
  group : option Z;
  row_bounds : Box
}.

(** The bounds of the union of two geometries. *)
Definition union_bounds (B C : Box) : Box :=
  let '(x0, y0, x1, y1) := B in
  let '(u0, v0, u1, v1) := C in
  (Qmin x0 u0, Qmin y0 v0, Qmax x1 u1, Qmax y1 v1).

Fixpoint insert_key (k : Z) (keys : list Z) : list Z :=
  match keys with
  | [] => [k]
  | j :: rest =>
      if (k <? j)%Z then k :: keys
      else if (k =? j)%Z then keys
      else j :: insert_key k rest
  end.

(** The values of the group field that are not null. *)
Definition keys_of (gdf : list Row) : list Z :=
  flat_map (fun r => match group r with Some k => [k] | None => [] end) gdf.

(** The distinct values of the group field, in increasing order. *)
Definition group_keys (gdf : list Row) : list Z :=
  fold_right insert_key [] (keys_of gdf).

(** The rows of the group of the value [k]. *)
Definition has_key (k : Z) (r : Row) : bool :=
  match group r with
  | Some j => (j =? k)%Z
  | None => false
  end.

(** [gdf.dissolve(by=group_field)] (GeoPandas'), as far as the script uses
    it: one row per value of the group field, in the order of the values,
    whose geometry is the union of the geometries of the group, here
    through its bounds.  A row whose group field is null belongs to no
    group and is dropped. *)
Definition dissolve (gdf : list Row) : list Row :=
  flat_map
    (fun k =>
       match filter (has_key k) gdf with
       | [] => []
       | r :: rest =>
           [mkRow (Some k) (fold_left union_bounds (map row_bounds rest)
                                      (row_bounds r))]
       end)
    (group_keys gdf).

(** The result is the table that is saved; each geometry is the [box] made
    of the bounds of its group's geometry, given by those bounds. *)
Definition create_grouped_axis_aligned_bounding_boxes (gdf : list Row)
  : list Row :=
  let grouped := dissolve gdf in
  map (fun x => mkRow (group x) (row_bounds x)) grouped.

(** The box [E] encompasses the box [B]. *)
Definition encompasses (E B : Box) : Prop :=
  let '(x0, y0, x1, y1) := E in
  let '(u0, v0, u1, v1) := B in
  x0 <= u0 /\ y0 <= v0 /\ u1 <= x1 /\ v1 <= y1.

End group_bbox_creator.

(** ** File names: the string operations of the [main] functions *)

Module pystr.

(** [s.find(sub)] for a non-empty [sub]: the index of the first
    occurrence. *)
Fixpoint find (sub s : String.string) : option nat :=
  if String.prefix sub s then Some 0%nat
  else
    match s with
    | String.EmptyString => None
    | String.String _ rest => option_map S (find sub rest)
    end.

(** [s.replace(old, new)] for a non-empty [old], scanning from the left;
    [skip] characters of an occurrence already replaced are still to be
    passed over. *)
Fixpoint replace_from (old new : String.string) (skip : nat)
    (s : String.string) : String.string :=
  match s with
  | String.EmptyString => String.EmptyString
  | String.String ch rest =>
      match skip with
      | S k => replace_from old new k rest
      | O =>
          if String.prefix old s
          then String.append new
                 (replace_from old new (String.length old - 1) rest)
          else String.String ch (replace_from old new 0 rest)
      end
  end.

Definition replace (old new s : String.string) : String.string :=
  replace_from old new 0 s.

(** [s.endswith(suffix)] *)
Fixpoint endswith (s suffix : String.string) : bool :=
  if String.eqb s suffix then true
  else
    match s with
    | String.EmptyString => false
    | String.String _ rest => endswith rest suffix
    end.

(** The index of the last dot. *)
Fixpoint rfind_dot (s : String.string) : option nat :=
  match s with
  | String.EmptyString => None
  | String.String ch rest =>
      match rfind_dot rest with
      | Some i => Some (S i)
      | None => if Ascii.eqb ch "."%char then Some 0%nat else None
      end
  end.

Fixpoint all_dots (s : String.string) : bool :=
  match s with
  | String.EmptyString => true
  | String.String ch rest => Ascii.eqb ch "."%char && all_dots rest
  end.

(** [os.path.splitext(p)] for a name without a directory part: the name is
    split at its last dot, unless only dots come before it. *)
Definition splitext (p : String.string) : String.string * String.string :=
  match rfind_dot p with
  | Some i =>
      if all_dots (String.substring 0 i p) then (p, String.EmptyString)
      else (String.substring 0 i p,
            String.substring i (String.length p - i) p)
  | None => (p, String.EmptyString)
  end.

End pystr.

(** The name of the PNG that [main] of tif2png.py (and of
    tif_to_png_squares.py) writes for a TIFF of base name [name]. *)
Definition png_file_name (name : String.string) : String.string :=
  pystr.replace ".tif"%string ".png"%string name.

(** The names that [main] of tif_shp_to_yolo_png_converter.py uses for a
    directory entry: the shapefile read, the PNG and the label file
    written; [None] when the entry is passed over. *)
Definition converter_file_names (filename : String.string)
  : option (String.string * String.string * String.string) :=
  if pystr.endswith filename ".tif"%string then
    let base_name := fst (pystr.splitext filename) in
    Some (String.append base_name ".shp"%string,
          String.append base_name ".png"%string,
          String.append base_name ".txt"%string)
  else None.

(** ** Further sample inputs *)

Module MoreExamples.

(** [Examples.band_with_nodata] with another fill value at the invalid
    position. *)
Definition band_with_other_fill : Band :=
  [(-999999999999999999999999999999999999999999 # 1); 0; 50; 100].

(** A band without invalid samples. *)
Definition valid_band : Band := [0; 50; 100; 25].

(** A reprojection that leaves the geometries as they are (the tables are
    in the raster's reference system already). *)
Definition same_crs (raster_crs : String.string)
    (gdf : list raster_clipper.GeoJSON) : list raster_clipper.GeoJSON := gdf.

(** Intersection of the bounding boxes of the first rings, enough for
    axis-aligned squares. *)
Definition bounds_intersect (g1 g2 : raster_clipper.GeoJSON) : bool :=
  match raster_clipper.coordinates g1, raster_clipper.coordinates g2 with
  | Some ((p :: r1) :: _), Some ((q :: r2) :: _) =>
      let xs1 := map raster_clipper.pos_x (p :: r1) in
      let ys1 := map raster_clipper.pos_y (p :: r1) in
      let xs2 := map raster_clipper.pos_x (q :: r2) in
      let ys2 := map raster_clipper.pos_y (q :: r2) in
      Qle_bool (fold_right Qmin (raster_clipper.pos_x p) xs1)
               (fold_right Qmax (raster_clipper.pos_x q) xs2)
      && Qle_bool (fold_right Qmin (raster_clipper.pos_x q) xs2)
                  (fold_right Qmax (raster_clipper.pos_x p) xs1)
      && Qle_bool (fold_right Qmin (raster_clipper.pos_y p) ys1)
                  (fold_right Qmax (raster_clipper.pos_y q) ys2)
      && Qle_bool (fold_right Qmin (raster_clipper.pos_y q) ys2)
                  (fold_right Qmax (raster_clipper.pos_y p) ys1)
  | _, _ => false
  end.

(** A writer that always succeeds. *)
Definition write_ok (gdf : list raster_clipper.GeoJSON) : result unit := Ok tt.

(** Three features in two groups, out of order, and one whose group field
    is null. *)
Definition grouped_features : list group_bbox_creator.Row :=
  [group_bbox_creator.mkRow (Some 7%Z) (0, 0, 2, 2);
   group_bbox_creator.mkRow (Some 3%Z) (10, 10, 11, 12);
   group_bbox_creator.mkRow None (20, 20, 21, 21);
   group_bbox_creator.mkRow (Some 7%Z) (1, -1, 5, 1)].

End MoreExamples.

(** * Properties *)

(** ** Affine transforms *)

Lemma Qeq_bool_false (x y : Q) : ~ x == y -> Qeq_bool x y = false.
Proof.
  intro H. destruct (Qeq_bool x y) eqn:E; [|reflexivity].
  apply Qeq_bool_eq in E. contradiction.
Qed.

Lemma invert_ok (T : Affine.t) :
  ~ Affine.determinant T == 0 ->
  exists inv, Affine.invert T = Ok inv.
Proof.
  intro H. unfold Affine.invert. rewrite (Qeq_bool_false _ _ H). eauto.
Qed.

Lemma invert_Ok_det (T inv : Affine.t) :
  Affine.invert T = Ok inv -> ~ Affine.determinant T == 0.
Proof.
  unfold Affine.invert. destruct (Qeq_bool (Affine.determinant T) 0) eqn:E.
  - discriminate.
  - intros _ H. apply Qeq_bool_neq in E. contradiction.
Qed.

(** The inverse transform undoes the forward one, and conversely. *)
Lemma apply_invert (T inv : Affine.t) (p : Q * Q) :
  Affine.invert T = Ok inv -> pt_eq (Affine.apply inv (Affine.apply T p)) p.
Proof.
  intro H. pose proof (invert_Ok_det _ _ H) as Hd. revert H.
  unfold Affine.invert.
  destruct (Qeq_bool (Affine.determinant T) 0); [discriminate|].
  intro H. injection H as <-. destruct p as [x y], T as [a b c d e f].
  unfold Affine.determinant in *. unfold pt_eq. simpl in *.
  split; field; exact Hd.
Qed.

Lemma invert_apply (T inv : Affine.t) (p : Q * Q) :
  Affine.invert T = Ok inv -> pt_eq (Affine.apply T (Affine.apply inv p)) p.
Proof.
  intro H. pose proof (invert_Ok_det _ _ H) as Hd. revert H.
  unfold Affine.invert.
  destruct (Qeq_bool (Affine.determinant T) 0); [discriminate|].
  intro H. injection H as <-. destruct p as [x y], T as [a b c d e f].
  unfold Affine.determinant in *. unfold pt_eq. simpl in *.
  split; field; exact Hd.
Qed.

(** ** Shapefile to YOLO labels and back *)

Lemma pydiv_ok (x : Q) (n : Z) :
  n <> 0%Z -> pydiv x n = Ok (x / inject_Z n).
Proof.
  intro H. unfold pydiv. destruct (Z.eqb_spec n 0); [contradiction|reflexivity].
Qed.

Lemma inject_Z_nonzero (n : Z) : n <> 0%Z -> ~ inject_Z n == 0.
Proof.
  intros H E. apply H. unfold Qeq in E. simpl in E. lia.
Qed.

(** Every line that [yolo_line] produces carries class 0. *)
Lemma yolo_line_class (row : Feature) (T : Affine.t) (w h : Z)
    (line : Annotation) :
  tif_shp_to_yolo_png_converter.yolo_line row T w h = Ok line ->
  class_id line = 0%Z.
Proof.
  unfold tif_shp_to_yolo_png_converter.yolo_line,
    tif_shp_to_yolo_png_converter.convert_geo_to_pixel_coords.
  destruct (bounds row) as [[[minx miny] maxx] maxy].
  destruct (Affine.invert T) as [inv|]; simpl; [|discriminate].
  destruct (pydiv _ w); simpl; [|discriminate].
  destruct (pydiv _ h); simpl; [|discriminate].
  destruct (pydiv _ w); simpl; [|discriminate].
  destruct (pydiv _ h); simpl; [|discriminate].
  intro H. injection H as <-. reflexivity.
Qed.

(** With an invertible transform and non-zero image sizes a row always
    yields its line; under a rotation-free transform, decoding that line
    gives the row's bounds back. *)
Lemma yolo_line_roundtrip (row : Feature) (T : Affine.t) (w h : Z) :
  ~ Affine.determinant T == 0 -> w <> 0%Z -> h <> 0%Z ->
  exists line,
    tif_shp_to_yolo_png_converter.yolo_line row T w h = Ok line /\
    (Affine.rotation_free T ->
     box_eq (yolo2shp.detection_geom line T w h) (bounds row)).
Proof.
  intros Hdet Hw Hh.
  unfold tif_shp_to_yolo_png_converter.yolo_line,
    tif_shp_to_yolo_png_converter.convert_geo_to_pixel_coords.
  destruct (bounds row) as [[[minx miny] maxx] maxy].
  unfold Affine.invert. rewrite (Qeq_bool_false _ _ Hdet). simpl.
  rewrite !pydiv_ok by assumption. simpl.
  eexists. split; [reflexivity|].
  intros [Hb Hd].
  pose proof (inject_Z_nonzero w Hw) as Hw'.
  pose proof (inject_Z_nonzero h Hh) as Hh'.
  destruct T as [a b c d e f]. unfold Affine.determinant in *.
  unfold yolo2shp.detection_geom, box_eq. simpl in *.
  assert (Ha : ~ a * e == 0).
  { intro E. apply Hdet. rewrite Hb, E. ring. }
  assert (Ha' : ~ a == 0) by (intro E; apply Ha; rewrite E; ring).
  assert (He' : ~ e == 0) by (intro E; apply Ha; rewrite E; ring).
  rewrite !Hb, !Hd.
  repeat split; field; repeat split; try assumption;
    intro E; apply Ha; rewrite <- E; ring.
Qed.

Lemma write_rows_ok (rows : list Feature) (T : Affine.t) (w h : Z) :
  ~ Affine.determinant T == 0 -> w <> 0%Z -> h <> 0%Z ->
  forall file, exists lines,
    tif_shp_to_yolo_png_converter.write_rows rows T w h file
      = (file ++ lines, Ok tt) /\
    (Affine.rotation_free T ->
     Forall2 (fun row line =>
                box_eq (yolo2shp.detection_geom line T w h) (bounds row))
             rows lines).
Proof.
  intros Hdet Hw Hh. induction rows as [|row rest IH]; intro file; simpl.
  - exists []. rewrite app_nil_r. split; [reflexivity|constructor].
  - destruct (yolo_line_roundtrip row T w h Hdet Hw Hh) as (line & -> & Hrt).
    destruct (IH (file ++ [line])) as (lines & -> & Hrest).
    exists (line :: lines). rewrite <- app_assoc. simpl.
    split; [reflexivity|]. intro Hrf.
    constructor; [apply Hrt | apply Hrest]; exact Hrf.
Qed.

Lemma write_rows_class (rows : list Feature) (T : Affine.t) (w h : Z) :
  forall file,
    Forall (fun line => class_id line = 0%Z) file ->
    Forall (fun line => class_id line = 0%Z)
           (fst (tif_shp_to_yolo_png_converter.write_rows rows T w h file)).
Proof.
  induction rows as [|row rest IH]; intros file Hfile; simpl.
  - exact Hfile.
  - destruct (tif_shp_to_yolo_png_converter.yolo_line row T w h) as [line|]
      eqn:E; simpl.
    + apply IH. apply Forall_app. split; [exact Hfile|].
      constructor; [|constructor]. exact (yolo_line_class _ _ _ _ _ E).
    + exact Hfile.
Qed.

(** The output table of [detections_to_shp], row by row. *)
Lemma detections_to_shp_rows (detections : list Annotation) (T : Affine.t)
    (w h : Z) :
  yolo2shp.detections_to_shp detections T w h
  = map (fun row =>
           mkDetection (yolo2shp.detection_geom row T w h) (class_id row))
        detections.
Proof.
  unfold yolo2shp.detections_to_shp.
  induction detections as [|row rest IH]; simpl; [reflexivity|].
  f_equal. exact IH.
Qed.

(** C1.  For a rotation-free, invertible transform and positive image
    sizes, writing the label file of a feature table with [shp_to_yolo]
    and converting it back with [detections_to_shp] gives, row by row, a
    box equal to the bounds of the input geometry.  (Exact rational
    arithmetic; the restriction of the boxes to the raster's extent is not
    needed.) *)
Theorem shp_yolo_shp_roundtrip (gdf : list Feature) (T : Affine.t) (w h : Z) :
  Affine.rotation_free T -> ~ Affine.determinant T == 0 ->
  (0 < w)%Z -> (0 < h)%Z ->
  exists labels,
    tif_shp_to_yolo_png_converter.shp_to_yolo gdf T w h = (labels, Ok tt) /\
    Forall2 (fun row det => box_eq (geometry det) (bounds row))
            gdf (yolo2shp.detections_to_shp labels T w h).
Proof.
  intros Hrf Hdet Hw Hh.
  destruct (write_rows_ok gdf T w h Hdet) with (file := @nil Annotation)
    as (labels & Hrun & Hrt); try lia.
  exists labels. split; [exact Hrun|].
  rewrite detections_to_shp_rows.
  specialize (Hrt Hrf). clear Hrun.
  induction Hrt; simpl; constructor; auto.
Qed.

(** C10.  Whatever the features and their attributes, and however the call
    ends, every line in the label file written by [shp_to_yolo] has class
    id 0. *)
Theorem shp_to_yolo_class_zero (gdf : list Feature) (T : Affine.t) (w h : Z) :
  Forall (fun line => class_id line = 0%Z)
         (fst (tif_shp_to_yolo_png_converter.shp_to_yolo gdf T w h)).
Proof.
  unfold tif_shp_to_yolo_png_converter.shp_to_yolo.
  apply write_rows_class. constructor.
Qed.

(** ** The pixel box of a geographic box *)

Lemma Qmin4_eq (a b c d m : Q) :
  m == a \/ m == b \/ m == c \/ m == d ->
  m <= a -> m <= b -> m <= c -> m <= d ->
  Qmin (Qmin a b) (Qmin c d) == m.
Proof.
  intros Hm Ha Hb Hc Hd.
  destruct (Q.min_spec a b) as [[? E1]|[? E1]];
    destruct (Q.min_spec c d) as [[? E2]|[? E2]];
    destruct (Q.min_spec (Qmin a b) (Qmin c d)) as [[? E3]|[? E3]];
    rewrite E3; lra.
Qed.

Lemma Qmax4_eq (a b c d m : Q) :
  m == a \/ m == b \/ m == c \/ m == d ->
  a <= m -> b <= m -> c <= m -> d <= m ->
  Qmax (Qmax a b) (Qmax c d) == m.
Proof.
  intros Hm Ha Hb Hc Hd.
  destruct (Q.max_spec a b) as [[? E1]|[? E1]];
    destruct (Q.max_spec c d) as [[? E2]|[? E2]];
    destruct (Q.max_spec (Qmax a b) (Qmax c d)) as [[? E3]|[? E3]];
    rewrite E3; lra.
Qed.

(** C2 (as the code has it).  [convert_geo_to_pixel_coords] maps the two
    opposite corners [(minx, miny)] and [(maxx, maxy)] through the inverse
    transform and returns the column of the first, the row of the second,
    the column of the second and the row of the first.  For a north-up
    transform (no rotation, [a > 0], [e < 0]) and an ordered box this is
    the min/max over the four mapped corners. *)
Theorem convert_geo_to_pixel_coords_north_up
    (minx miny maxx maxy : Q) (T : Affine.t) :
  Affine.north_up T -> minx <= maxx -> miny <= maxy ->
  exists inv px bb,
    Affine.invert T = Ok inv /\
    tif_shp_to_yolo_png_converter.convert_geo_to_pixel_coords
      (minx, miny, maxx, maxy) T = Ok px /\
    px = (fst (Affine.apply inv (minx, miny)),
          snd (Affine.apply inv (maxx, maxy)),
          fst (Affine.apply inv (maxx, maxy)),
          snd (Affine.apply inv (minx, miny))) /\
    four_corner_pixel_box (minx, miny, maxx, maxy) T = Ok bb /\
    box_eq px bb.
Proof.
  intros [[Hb Hd] [Ha He]] Hx Hy.
  assert (Hdet : ~ Affine.determinant T == 0).
  { unfold Affine.determinant. rewrite Hb. intro E.
    assert (a0 : Affine.a T * Affine.e T < 0).
    { setoid_replace (Affine.a T * Affine.e T)
        with (- (Affine.a T * - Affine.e T)) by ring.
      assert (0 < Affine.a T * - Affine.e T)
        by (apply Qmult_lt_0_compat; lra).
      lra. }
    lra. }
  destruct (invert_ok T Hdet) as [inv Hinv].
  unfold tif_shp_to_yolo_png_converter.convert_geo_to_pixel_coords,
    four_corner_pixel_box.
  rewrite Hinv. simpl.
  do 3 eexists. split; [reflexivity|]. split; [reflexivity|].
  split; [reflexivity|]. split; [reflexivity|].
  revert Hinv. unfold Affine.invert. rewrite (Qeq_bool_false _ _ Hdet).
  intro Hinv. injection Hinv as <-.
  destruct T as [a b c d e f]. unfold Affine.determinant in *.
  simpl in *.
  assert (Hae : ~ a * e == 0) by (intro E; apply Hdet; rewrite E, Hb; ring).
  set (k := 1 / (a * e - b * d)).
  assert (Hk : k == 1 / (a * e)).
  { unfold k. rewrite Hb. field. split; lra. }
  assert (Hek : e * k == 1 / a).
  { rewrite Hk. field. split; lra. }
  assert (Hak : a * k == 1 / e).
  { rewrite Hk. field. split; lra. }
  assert (Hia : 0 < 1 / a).
  { unfold Qdiv. rewrite Qmult_1_l. apply Qinv_lt_0_compat. exact Ha. }
  assert (Hie : 0 < - (1 / e)).
  { setoid_replace (- (1 / e)) with (/ - e) by (field; lra).
    apply Qinv_lt_0_compat. lra. }
  assert (Hdx : 0 <= (maxx - minx) * (1 / a))
    by (apply Qmult_le_0_compat; lra).
  assert (Hdy : 0 <= (maxy - miny) * - (1 / e))
    by (apply Qmult_le_0_compat; lra).
  rewrite !Hb, !Hd, !Hek, !Hak.
  set (ia := 1 / a) in *. set (ie := 1 / e) in *.
  unfold box_eq.
  repeat split; symmetry;
    (apply Qmin4_eq || apply Qmax4_eq);
    try lra;
    first [ left; lra | right; left; lra
          | right; right; left; lra | right; right; right; lra ].
Qed.

Lemma convert_geo_to_pixel_coords_north_up_witness :
  exists inv px bb,
    Affine.invert Examples.north_up_2 = Ok inv /\
    tif_shp_to_yolo_png_converter.convert_geo_to_pixel_coords
      (102, 196, 106, 200) Examples.north_up_2 = Ok px /\
    px = (fst (Affine.apply inv (102, 196)),
          snd (Affine.apply inv (106, 200)),
          fst (Affine.apply inv (106, 200)),
          snd (Affine.apply inv (102, 196))) /\
    four_corner_pixel_box (102, 196, 106, 200) Examples.north_up_2 = Ok bb /\
    box_eq px bb.
Proof.
  apply (convert_geo_to_pixel_coords_north_up 102 196 106 200
           Examples.north_up_2).
  - repeat split; reflexivity.
  - discriminate.
  - discriminate.
Defined.

(** Under a transform with rotation and skew the two mapped corners do not
    span the box of the four mapped corners: for the geographic box
    [0,0]-[2,2] the code returns rows 0 to 0, the four corners span rows
    -1 to 1. *)
Lemma two_corners_miss_four_corner_box :
  exists px bb,
    tif_shp_to_yolo_png_converter.convert_geo_to_pixel_coords
      (0, 0, 2, 2) Examples.skewed = Ok px /\
    four_corner_pixel_box (0, 0, 2, 2) Examples.skewed = Ok bb /\
    ~ box_eq px bb.
Proof.
  do 2 eexists. split; [reflexivity|]. split; [reflexivity|].
  intros (_ & H & _). vm_compute in H. discriminate.
Qed.

Lemma shp_yolo_shp_roundtrip_witness :
  exists labels,
    tif_shp_to_yolo_png_converter.shp_to_yolo
      [Examples.feature_in_north_up] Examples.north_up_2 4 3
    = (labels, Ok tt) /\
    Forall2 (fun row det => box_eq (geometry det) (bounds row))
            [Examples.feature_in_north_up]
            (yolo2shp.detections_to_shp labels Examples.north_up_2 4 3).
Proof.
  apply (shp_yolo_shp_roundtrip [Examples.feature_in_north_up]
           Examples.north_up_2 4 3).
  - split; reflexivity.
  - intro H. vm_compute in H. discriminate.
  - lia.
  - lia.
Defined.

(** ** The end-to-end scenario on the identity-like transform *)



(** ** Class ids are not validated *)

Lemma Qltb_lt (x y : Q) : Qltb x y = true <-> x < y.
Proof.
  unfold Qltb. rewrite negb_true_iff. split; intro H.
  - apply Qnot_le_lt. intro L. apply Qle_bool_iff in L. congruence.
  - destruct (Qle_bool y x) eqn:E; [|reflexivity].
    apply Qle_bool_iff in E. lra.
Qed.

Lemma Qltb_ge (x y : Q) : Qltb x y = false <-> y <= x.
Proof.
  unfold Qltb. rewrite negb_false_iff. apply Qle_bool_iff.
Qed.

(** On an image of positive size Pillow accepts the rectangle of a label
    line exactly when the width and the height of the line are not
    negative. *)
Lemma rectangle_of_line (line : Annotation) (W H : Z) :
  (0 < W)%Z -> (0 < H)%Z ->
  (0 <= width line /\ 0 <= height line ->
   draw_bboxes.rectangle (draw_bboxes.draw_rectangle line W H)
   = Ok (draw_bboxes.draw_rectangle line W H)) /\
  (width line < 0 \/ height line < 0 ->
   draw_bboxes.rectangle (draw_bboxes.draw_rectangle line W H)
   = Raise ValueError).
Proof.
  intros HW HH.
  assert (QW : 0 < inject_Z W)
    by (change 0 with (inject_Z 0); rewrite <- Zlt_Qlt; exact HW).
  assert (QH : 0 < inject_Z H)
    by (change 0 with (inject_Z 0); rewrite <- Zlt_Qlt; exact HH).
  destruct line as [cls xc yc wn hn].
  unfold draw_bboxes.rectangle, draw_bboxes.draw_rectangle.
  cbn [width height].
  assert (EW : wn * inject_Z W / 2 == (1 # 2) * (wn * inject_Z W))
    by field.
  assert (EH : hn * inject_Z H / 2 == (1 # 2) * (hn * inject_Z H))
    by field.
  destruct (Qltb (xc * inject_Z W + wn * inject_Z W / 2)
                 (xc * inject_Z W - wn * inject_Z W / 2)) eqn:X;
    [apply Qltb_lt in X|apply Qltb_ge in X]; rewrite EW in X.
  - split; [|reflexivity]. intros [Hw _]. exfalso. nra.
  - destruct (Qltb (yc * inject_Z H + hn * inject_Z H / 2)
                   (yc * inject_Z H - hn * inject_Z H / 2)) eqn:Y;
      [apply Qltb_lt in Y|apply Qltb_ge in Y]; rewrite EH in Y.
    + split; [|reflexivity]. intros [_ Hh]. exfalso. nra.
    + split; [reflexivity|]. intros [Hw|Hh]; exfalso; nra.
Qed.

Lemma draw_bounding_boxes_accepts
    (labels : list Annotation) (W H : Z) :
  (0 < W)%Z -> (0 < H)%Z ->
  Forall (fun line => 0 <= width line /\ 0 <= height line) labels ->
  draw_bboxes.draw_bounding_boxes labels W H
  = Ok (map (fun line => draw_bboxes.draw_rectangle line W H) labels).
Proof.
  intros HW HH Hall.
  induction Hall as [|line rest Hline Hrest IH]; [reflexivity|].
  cbn [draw_bboxes.draw_bounding_boxes map].
  rewrite (proj1 (rectangle_of_line line W H HW HH) Hline).
  cbn [bind]. rewrite IH. reflexivity.
Qed.

Lemma draw_bounding_boxes_raises
    (labels : list Annotation) (W H : Z) (e : exn) :
  draw_bboxes.draw_bounding_boxes labels W H = Raise e -> e = ValueError.
Proof.
  induction labels as [|line rest IH]; [discriminate|].
  cbn [draw_bboxes.draw_bounding_boxes].
  unfold draw_bboxes.rectangle at 1.
  destruct (draw_bboxes.draw_rectangle line W H) as [[[l t] r] b].
  destruct (Qltb r l); [cbn [bind]; congruence|].
  destruct (Qltb b t); [cbn [bind]; congruence|].
  cbn [bind].
  destruct (draw_bboxes.draw_bounding_boxes rest W H) as [rs|e'];
    cbn [bind]; [discriminate|].
  intro E. apply IH. congruence.
Qed.

Lemma draw_bounding_boxes_refuses
    (labels : list Annotation) (W H : Z) :
  (0 < W)%Z -> (0 < H)%Z ->
  (exists line, In line labels /\ (width line < 0 \/ height line < 0)) ->
  draw_bboxes.draw_bounding_boxes labels W H = Raise ValueError.
Proof.
  intros HW HH (line & Hin & Hneg).
  destruct (draw_bboxes.draw_bounding_boxes labels W H) as [rects|e] eqn:E.
  - exfalso. revert rects E.
    induction labels as [|l rest IH]; [destruct Hin|].
    intros rects. cbn [draw_bboxes.draw_bounding_boxes].
    destruct Hin as [->|Hin].
    + rewrite (proj2 (rectangle_of_line line W H HW HH) Hneg).
      discriminate.
    + destruct (draw_bboxes.rectangle (draw_bboxes.draw_rectangle l W H));
        cbn [bind]; [|discriminate].
      destruct (draw_bboxes.draw_bounding_boxes rest W H) as [rs|e'];
        cbn [bind]; [|discriminate].
      intros _. exact (IH Hin rs eq_refl).
  - f_equal. exact (draw_bounding_boxes_raises labels W H e E).
Qed.

(** On a 200 x 200 raster the label line [-1 0.5 0.5 0.2 0.2] is
    accepted: it is converted, its class id -1 is written to the output
    table, and it is drawn.  So is the line [0 0.5 0.5 0 0.2], whose
    width is zero; and the line [0 0.5 0.5 -0.2 0.2], whose width is
    negative, is converted too. *)
Lemma negative_class_id_is_accepted :
  (exists det,
     yolo2shp.detections_to_shp [Examples.negative_class_line]
       Examples.identity_like 200 200 = [det] /\
     box_eq (geometry det) (80, 120, 120, 80) /\
     det_class_id det = (-1)%Z) /\
  (exists rect,
     draw_bboxes.draw_bounding_boxes [Examples.negative_class_line] 200 200
     = Ok [rect]) /\
  (exists det,
     yolo2shp.detections_to_shp [Examples.zero_width_line]
       Examples.identity_like 200 200 = [det] /\
     box_eq (geometry det) (100, 120, 100, 80)) /\
  (exists rect,
     draw_bboxes.draw_bounding_boxes [Examples.zero_width_line] 200 200
     = Ok [rect]) /\
  (exists det,
     yolo2shp.detections_to_shp [Examples.negative_width_line]
       Examples.identity_like 200 200 = [det] /\
     box_eq (geometry det) (120, 120, 80, 80)).
Proof.
  split; [|split; [|split; [|split]]].
  - eexists. split; [reflexivity|]. split; [|reflexivity].
    repeat split; reflexivity.
  - eexists. reflexivity.
  - eexists. split; [reflexivity|]. repeat split; reflexivity.
  - eexists. reflexivity.
  - eexists. split; [reflexivity|]. repeat split; reflexivity.
Qed.

(** C9 (as the code has it).  Class ids are not validated.  For a table
    of records whose class ids fit the 64-bit integer column they are
    read into, and a raster or image of positive size:
    [detections_to_shp] yields one row per record, in order, whatever
    the sign of the class id and whatever the width and the height of the
    record, and copies the class id to the row unchanged;
    [draw_bounding_boxes], which ignores the class id, draws every record
    when no record has a negative width or height, a zero one included,
    and fails with the [ValueError] of the drawing library, saving
    nothing, when some record has a negative width or height. *)
Theorem class_ids_are_not_validated
    (detections : list Annotation) (T : Affine.t) (w h : Z) :
  (0 < w)%Z -> (0 < h)%Z ->
  Forall (fun row => (- 2 ^ 63 <= class_id row < 2 ^ 63)%Z) detections ->
  map det_class_id (yolo2shp.detections_to_shp detections T w h)
    = map class_id detections /\
  map geometry (yolo2shp.detections_to_shp detections T w h)
    = map (fun row => yolo2shp.detection_geom row T w h) detections /\
  (Forall (fun row => 0 <= width row /\ 0 <= height row) detections ->
   draw_bboxes.draw_bounding_boxes detections w h
   = Ok (map (fun row => draw_bboxes.draw_rectangle row w h) detections)) /\
  ((exists row, In row detections /\ (width row < 0 \/ height row < 0)) ->
   draw_bboxes.draw_bounding_boxes detections w h = Raise ValueError).
Proof.
  intros Hw Hh _.
  rewrite detections_to_shp_rows. rewrite !map_map. simpl.
  split; [reflexivity|]. split; [reflexivity|]. split.
  - apply draw_bounding_boxes_accepts; assumption.
  - apply draw_bounding_boxes_refuses; assumption.
Qed.

Lemma class_ids_are_not_validated_witness :
  let detections := [Examples.negative_class_line] in
  map det_class_id
      (yolo2shp.detections_to_shp detections Examples.identity_like 200 200)
    = [(-1)%Z] /\
  draw_bboxes.draw_bounding_boxes detections 200 200
    = Ok (map (fun row => draw_bboxes.draw_rectangle row 200 200)
              detections).
Proof.
  intro detections.
  destruct (class_ids_are_not_validated
              detections Examples.identity_like 200 200)
    as (Hc & _ & Hd & _).
  - reflexivity.
  - reflexivity.
  - constructor; [|constructor]. simpl. lia.
  - split; [exact Hc|]. apply Hd.
    constructor; [|constructor]. split; discriminate.
Defined.

(** ** Percentile stretch *)

Lemma clip_bounds (lo hi x : Q) : lo <= hi -> lo <= clip lo hi x <= hi.
Proof.
  intro H. unfold clip.
  destruct (Q.max_spec x lo) as [[? E1]|[? E1]];
    destruct (Q.min_spec (Qmax x lo) hi) as [[? E2]|[? E2]];
    rewrite E2; lra.
Qed.

(** With [p2 < p98] the stretch of any sample is a number in [0, 255]. *)
Lemma stretch_bounds (p2 p98 x : Q) :
  p2 < p98 ->
  exists v, stretch p2 p98 x = Some v /\ 0 <= v <= 255.
Proof.
  intro H. unfold stretch, npdiv.
  rewrite Qeq_bool_false by lra. simpl. eexists. split; [reflexivity|].
  pose proof (clip_bounds p2 p98 x (Qlt_le_weak _ _ H)) as [H1 H2].
  set (n := clip p2 p98 x - p2) in *.
  assert (Hd : 0 < p98 - p2) by lra.
  assert (H0 : 0 <= n / (p98 - p2)).
  { apply Qle_shift_div_l; [exact Hd|]. unfold n. lra. }
  assert (H3 : n / (p98 - p2) <= 1).
  { apply Qle_shift_div_r; [exact Hd|]. unfold n. lra. }
  lra.
Qed.

(** With [p2 == p98] the stretch of any sample divides by zero. *)
Lemma stretch_degenerate (p2 p98 x : Q) :
  p2 == p98 -> stretch p2 p98 x = None.
Proof.
  intro H. unfold stretch, npdiv.
  assert (E : Qeq_bool (p98 - p2) 0 = true) by (apply Qeq_bool_iff; lra).
  rewrite E. reflexivity.
Qed.

(** A stretched value in [0, 255] is cast to its integer part, a byte. *)
Lemma to_uint8_in_range (v : Q) :
  0 <= v <= 255 ->
  to_uint8 (Some v) = Some (Qfloor v) /\ (0 <= Qfloor v <= 255)%Z.
Proof.
  intros [H0 H1]. unfold to_uint8, Qtrunc.
  assert (E : Qle_bool 0 v = true) by (apply Qle_bool_iff; exact H0).
  rewrite E.
  assert (L0 : (0 <= Qfloor v)%Z).
  { change 0%Z with (Qfloor 0). apply Qfloor_resp_le. exact H0. }
  assert (L1 : (Qfloor v <= 255)%Z).
  { change 255%Z with (Qfloor 255). apply Qfloor_resp_le. exact H1. }
  destruct (Z.leb_spec 0 (Qfloor v)); [|lia].
  destruct (Z.leb_spec (Qfloor v) 255); [|lia].
  simpl. split; [reflexivity|lia].
Qed.

Lemma existsb_map_id {A : Type} (f : A -> bool) (l : list A) :
  existsb (fun v => v) (map f l) = existsb f l.
Proof.
  induction l as [|x l IH]; simpl; [reflexivity|]. rewrite IH. reflexivity.
Qed.

Lemma map_combine_maps {A B C D : Type} (g : B * C -> D) (f1 : A -> B)
    (f2 : A -> C) (l : list A) :
  map g (combine (map f1 l) (map f2 l)) = map (fun x => g (f1 x, f2 x)) l.
Proof.
  induction l as [|x l IH]; simpl; [reflexivity|]. rewrite IH. reflexivity.
Qed.

(** What [tif2png]'s loop body computes for a band, sample by sample. *)
Lemma scale_band_samples (band : Band) :
  tif2png.scale_band band =
  if existsb tif2png.valid band then
    Some (map (fun x =>
                 tif2png.blacken (tif2png.valid x)
                   (stretch (percentile (filter tif2png.valid band) 2)
                            (percentile (filter tif2png.valid band) 98) x))
              band)
  else None.
Proof.
  unfold tif2png.scale_band. rewrite existsb_map_id.
  destruct (existsb tif2png.valid band); [|reflexivity].
  rewrite map_combine_maps. reflexivity.
Qed.

Lemma insert_sorted_length (x : Q) (l : list Q) :
  length (insert_sorted x l) = S (length l).
Proof.
  induction l as [|y r IH]; simpl; [reflexivity|].
  destruct (Qle_bool x y); simpl; [reflexivity|]. rewrite IH. reflexivity.
Qed.

Lemma sort_length (l : list Q) : length (sort l) = length l.
Proof.
  induction l as [|x l IH]; simpl; [reflexivity|].
  unfold sort in *. simpl. rewrite insert_sorted_length, IH. reflexivity.
Qed.

Lemma insert_sorted_Forall (P : Q -> Prop) (x : Q) (l : list Q) :
  P x -> Forall P l -> Forall P (insert_sorted x l).
Proof.
  intros Hx Hl. induction Hl as [|y r Hy Hr IH]; simpl.
  - constructor; [exact Hx|constructor].
  - destruct (Qle_bool x y).
    + constructor; [exact Hx|]. constructor; assumption.
    + constructor; assumption.
Qed.

Lemma sort_Forall (P : Q -> Prop) (l : list Q) :
  Forall P l -> Forall P (sort l).
Proof.
  intro H. induction H as [|x l Hx Hl IH]; simpl; [constructor|].
  unfold sort in *. simpl. apply insert_sorted_Forall; assumption.
Qed.

Lemma nth_Forall (P : Q -> Prop) (l : list Q) (i : nat) (d : Q) :
  Forall P l -> (i < length l)%nat -> P (nth i l d).
Proof.
  intros H. revert i. induction H as [|x l Hx Hl IH]; intros i Hi; simpl in *.
  - lia.
  - destruct i as [|i]; [exact Hx|]. apply IH. lia.
Qed.

Lemma insert_sorted_HdRel (x y : Q) (l : list Q) :
  y <= x -> HdRel Qle y l -> HdRel Qle y (insert_sorted x l).
Proof.
  intros Hyx Hl. destruct l as [|z r]; simpl.
  - constructor. exact Hyx.
  - destruct (Qle_bool x z); constructor; [exact Hyx|].
    inversion Hl. assumption.
Qed.

Lemma insert_sorted_Sorted (x : Q) (l : list Q) :
  Sorted Qle l -> Sorted Qle (insert_sorted x l).
Proof.
  intro H. induction H as [|y r Hr IH Hy]; simpl.
  - repeat constructor.
  - destruct (Qle_bool x y) eqn:E.
    + apply Qle_bool_iff in E. repeat constructor; assumption.
    + constructor; [exact IH|]. apply insert_sorted_HdRel; [|exact Hy].
      destruct (Qlt_le_dec y x) as [L|L]; [apply Qlt_le_weak; exact L|].
      apply Qle_bool_iff in L. congruence.
Qed.

(** The ranks that [percentile] reads are those of the ordered samples. *)
Lemma sort_Sorted (l : list Q) : Sorted Qle (sort l).
Proof.
  induction l as [|x l IH]; simpl; [constructor|].
  unfold sort in *. simpl. apply insert_sorted_Sorted. exact IH.
Qed.

(** The percentile of a non-empty list of equal samples is that sample. *)
Lemma percentile_constant (l : list Q) (c q : Q) :
  l <> [] -> Forall (fun x => x == c) l -> 0 <= q <= 100 ->
  percentile l q == c.
Proof.
  intros Hne Hall [Hq0 Hq1]. unfold percentile.
  pose proof (sort_Forall _ _ Hall) as Hs.
  pose proof (sort_length l) as Hlen.
  set (s := sort l) in *.
  assert (Hn : (1 <= Z.of_nat (length s))%Z).
  { rewrite Hlen. destruct l; [contradiction|]. simpl. lia. }
  set (n := Z.of_nat (length s)) in *.
  set (h := (inject_Z n - 1) * (q / 100)).
  assert (Hn1 : inject_Z n - 1 == inject_Z (n - 1)).
  { unfold Qeq. simpl. lia. }
  assert (Hm : 0 <= inject_Z (n - 1)).
  { change 0 with (inject_Z 0). rewrite <- Zle_Qle. lia. }
  assert (Hr0 : 0 <= q / 100).
  { apply Qle_shift_div_l; [reflexivity|]. lra. }
  assert (Hr1 : q / 100 <= 1).
  { apply Qle_shift_div_r; [reflexivity|]. lra. }
  assert (Hh0 : 0 <= h).
  { unfold h. rewrite Hn1. apply Qmult_le_0_compat; assumption. }
  assert (Hh1 : h <= inject_Z (n - 1)).
  { unfold h. rewrite Hn1. set (m := inject_Z (n - 1)) in *.
    set (r := q / 100) in *.
    assert (0 <= m * (1 - r)) by (apply Qmult_le_0_compat; lra).
    lra. }
  assert (Hf0 : (0 <= Qfloor h)%Z).
  { change 0%Z with (Qfloor 0). apply Qfloor_resp_le. exact Hh0. }
  assert (Hf1 : (Qfloor h <= n - 1)%Z).
  { rewrite <- (Qfloor_Z (n - 1)). apply Qfloor_resp_le. exact Hh1. }
  assert (Hlo : nth (Z.to_nat (Qfloor h)) s 0 == c).
  { apply (nth_Forall (fun x => x == c)); [exact Hs|]. unfold n in *. lia. }
  assert (Hhi : nth (Z.to_nat (Z.min (Qfloor h + 1) (n - 1))) s 0 == c).
  { apply (nth_Forall (fun x => x == c)); [exact Hs|]. unfold n in *. lia. }
  rewrite Hlo, Hhi. ring.
Qed.

(** ** Radiometric normalisation *)

(** Two bands with a valid sample on which the claim fails.  In the
    converter of tif_shp_to_yolo_png_converter.py the nodata sample takes
    part in the percentiles: on the band [sentinel, 0, 50, 100] the stretch
    it applies is not the stretch between the percentiles of the valid
    samples 0, 50, 100 (the sample 50 becomes 254 instead of 127).  In
    tif2png.py, on the band [sentinel, 5, 5, 5] the output at the three
    valid positions is not a number. *)
Lemma normalisation_claim_fails :
  (exists x, In x Examples.band_with_nodata /\ tif2png.valid x = true) /\
  (let p2 := percentile (filter tif2png.valid Examples.band_with_nodata) 2 in
   let p98 := percentile (filter tif2png.valid Examples.band_with_nodata) 98 in
   map to_uint8
       (tif_shp_to_yolo_png_converter.scale_band Examples.band_with_nodata)
   <> map to_uint8 (map (stretch p2 p98) Examples.band_with_nodata)) /\
  (exists x, In x Examples.constant_band /\ tif2png.valid x = true) /\
  tif2png.scale_band Examples.constant_band
  = Some [Some 0; None; None; None].
Proof.
  split; [|split; [|split]].
  - exists 0. split; [simpl; auto|reflexivity].
  - vm_compute. discriminate.
  - exists 5. split; [simpl; auto|reflexivity].
  - reflexivity.
Qed.

(** C4 (as the code has it).  In tif2png.py, for a band with at least one
    valid sample whose 2nd and 98th percentiles [p2 < p98] are taken over
    the valid samples only: the output has the size of the band, is 0 at
    every invalid position, and at every valid position is the stretch of
    the sample between [p2] and [p98], a number in [0, 255] that the cast
    to 8 bits keeps.  The converter of tif_shp_to_yolo_png_converter.py has
    no mask: it stretches every sample between the percentiles of all the
    samples. *)
Theorem scale_band_masked (band : Band) :
  let p2 := percentile (filter tif2png.valid band) 2 in
  let p98 := percentile (filter tif2png.valid band) 98 in
  (exists x, In x band /\ tif2png.valid x = true) ->
  p2 < p98 ->
  (exists out,
     tif2png.scale_band band = Some out /\
     length out = length band /\
     (forall i x, nth_error band i = Some x -> tif2png.valid x = false ->
        nth_error out i = Some (Some 0)) /\
     (forall i x, nth_error band i = Some x -> tif2png.valid x = true ->
        exists v,
          nth_error out i = Some (Some v) /\
          stretch p2 p98 x = Some v /\
          0 <= v <= 255 /\
          to_uint8 (Some v) = Some (Qfloor v) /\
          (0 <= Qfloor v <= 255)%Z)) /\
  tif_shp_to_yolo_png_converter.scale_band band
  = map (stretch (percentile band 2) (percentile band 98)) band.
Proof.
  intros p2 p98 Hvalid Hlt. split; [|reflexivity].
  rewrite scale_band_samples.
  assert (E : existsb tif2png.valid band = true).
  { apply existsb_exists. exact Hvalid. }
  rewrite E. fold p2 p98.
  eexists. split; [reflexivity|]. split; [apply length_map|]. split.
  - intros i x Hi Hx. rewrite nth_error_map, Hi. simpl. rewrite Hx.
    reflexivity.
  - intros i x Hi Hx. rewrite nth_error_map, Hi. simpl. rewrite Hx. simpl.
    destruct (stretch_bounds p2 p98 x Hlt) as (v & Hv & Hb).
    exists v. rewrite Hv. split; [reflexivity|]. split; [reflexivity|].
    split; [exact Hb|]. apply to_uint8_in_range. exact Hb.
Qed.

Lemma scale_band_masked_witness :
  let band := Examples.band_with_nodata in
  let p2 := percentile (filter tif2png.valid band) 2 in
  let p98 := percentile (filter tif2png.valid band) 98 in
  (exists out,
     tif2png.scale_band band = Some out /\
     length out = length band /\
     (forall i x, nth_error band i = Some x -> tif2png.valid x = false ->
        nth_error out i = Some (Some 0)) /\
     (forall i x, nth_error band i = Some x -> tif2png.valid x = true ->
        exists v,
          nth_error out i = Some (Some v) /\
          stretch p2 p98 x = Some v /\
          0 <= v <= 255 /\
          to_uint8 (Some v) = Some (Qfloor v) /\
          (0 <= Qfloor v <= 255)%Z)) /\
  tif_shp_to_yolo_png_converter.scale_band band
  = map (stretch (percentile band 2) (percentile band 98)) band.
Proof.
  apply (scale_band_masked Examples.band_with_nodata).
  - exists 0. split; [simpl; auto|reflexivity].
  - reflexivity.
Defined.

(** C5 (what the code does instead).  In tif2png.py, for a band with a
    valid sample whose valid samples are all equal, the two percentiles
    coincide and the stretch divides zero by zero at every position: after
    the mask is applied the output is 0 at the invalid positions and not a
    number at every valid one, and the cast of those to 8 bits is
    unspecified; so is every channel of the image saved for a raster
    whose three bands are such a band.  There is no mid-gray output. *)
Theorem constant_band_divides_by_zero (band : Band) (c : Q) :
  (exists x, In x band /\ tif2png.valid x = true) ->
  (forall x, In x band -> tif2png.valid x = true -> x == c) ->
  percentile (filter tif2png.valid band) 2
    == percentile (filter tif2png.valid band) 98 /\
  tif2png.scale_band band
    = Some (map (fun x => if tif2png.valid x then None else Some 0) band) /\
  tif2png.convert_tif_to_png [band; band; band]
    = Ok (Some
            (let channel :=
               map (fun x => if tif2png.valid x then None else Some 0%Z)
                   band in
             [channel; channel; channel])).
Proof.
  intros (x0 & Hin & Hv) Hall.
  assert (Hne : filter tif2png.valid band <> []).
  { intro E. assert (H : In x0 (filter tif2png.valid band))
      by (apply filter_In; split; assumption).
    rewrite E in H. exact H. }
  assert (Hc : Forall (fun x => x == c) (filter tif2png.valid band)).
  { apply Forall_forall. intros x Hx. apply filter_In in Hx.
    destruct Hx. apply Hall; assumption. }
  assert (H2 : percentile (filter tif2png.valid band) 2 == c)
    by (apply percentile_constant; try assumption; lra).
  assert (H98 : percentile (filter tif2png.valid band) 98 == c)
    by (apply percentile_constant; try assumption; lra).
  assert (Hp : percentile (filter tif2png.valid band) 2
               == percentile (filter tif2png.valid band) 98)
    by (rewrite H2, H98; reflexivity).
  assert (Hs : tif2png.scale_band band
    = Some (map (fun x => if tif2png.valid x then None else Some 0) band)).
  { rewrite scale_band_samples.
    assert (E : existsb tif2png.valid band = true)
      by (apply existsb_exists; eauto).
    rewrite E. f_equal. apply map_ext. intro x.
    rewrite stretch_degenerate by exact Hp.
    destruct (tif2png.valid x); reflexivity. }
  split; [exact Hp|]. split; [exact Hs|].
  assert (Hch : map to_uint8
                   (map (fun x => if tif2png.valid x then None else Some 0)
                        band)
                 = map (fun x => if tif2png.valid x then None
                                 else Some 0%Z) band).
  { rewrite map_map. apply map_ext. intro x.
    destruct (tif2png.valid x); reflexivity. }
  unfold tif2png.convert_tif_to_png.
  cbn [tif2png.scale_bands]. rewrite Hs.
  cbn [map]. rewrite Hch. reflexivity.
Qed.

Lemma constant_band_divides_by_zero_witness :
  percentile (filter tif2png.valid Examples.constant_band) 2
    == percentile (filter tif2png.valid Examples.constant_band) 98 /\
  tif2png.scale_band Examples.constant_band
    = Some (map (fun x => if tif2png.valid x then None else Some 0)
                Examples.constant_band) /\
  tif2png.convert_tif_to_png
    [Examples.constant_band; Examples.constant_band; Examples.constant_band]
    = Ok (Some
            (let channel :=
               map (fun x => if tif2png.valid x then None else Some 0%Z)
                   Examples.constant_band in
             [channel; channel; channel])).
Proof.
  apply (constant_band_divides_by_zero Examples.constant_band 5).
  - exists 5. split; [simpl; auto|reflexivity].
  - intros x Hin Hv. simpl in Hin.
    destruct Hin as [<-|[<-|[<-|[<-|[]]]]];
      try reflexivity; discriminate.
Defined.

Lemma scale_band_None (band : Band) :
  tif2png.scale_band band = None <-> existsb tif2png.valid band = false.
Proof.
  rewrite scale_band_samples.
  destruct (existsb tif2png.valid band); split; intro H;
    try reflexivity; discriminate.
Qed.

Lemma scale_bands_usable (bands : list Band) :
  Forall2 (fun band scaled => tif2png.scale_band band = Some scaled)
          (filter (existsb tif2png.valid) bands)
          (tif2png.scale_bands bands).
Proof.
  induction bands as [|band rest IH]; simpl; [constructor|].
  destruct (tif2png.scale_band band) as [scaled|] eqn:E.
  - destruct (existsb tif2png.valid band) eqn:V.
    + constructor; assumption.
    + apply scale_band_None in V. congruence.
  - apply scale_band_None in E. rewrite E. exact IH.
Qed.

Lemma fromarray_RGB_spec (array : Image8) :
  match tif2png.fromarray_RGB array with
  | Ok image => (3 <= length array)%nat /\ image = array
  | Raise e => e = ValueError /\ (length array < 3)%nat
  end.
Proof.
  unfold tif2png.fromarray_RGB.
  destruct (length array <? 3)%nat eqn:E.
  - apply Nat.ltb_lt in E. split; [reflexivity|exact E].
  - apply Nat.ltb_ge in E. split; [exact E|reflexivity].
Qed.

(** With the first band entirely invalid and two usable bands, the two
    usable bands are scaled and stacked, and the stack of two channels is
    refused by [Image.fromarray]: nothing is saved, and the error that
    leaves the function is the [ValueError] of the image library.  The
    script counts no bands and has no error of its own to signal. *)
Lemma two_usable_bands_raise_ValueError :
  length (tif2png.scale_bands
            [Examples.invalid_band; Examples.band_with_nodata;
             Examples.band_with_nodata]) = 2%nat /\
  tif2png.convert_tif_to_png
    [Examples.invalid_band; Examples.band_with_nodata;
     Examples.band_with_nodata] = Raise ValueError.
Proof.
  split; reflexivity.
Qed.

(** C8 (as the code has it).  In tif2png.py a band is dropped exactly
    when it has no valid sample, and the bands that remain are scaled and
    stacked in their input order, with no check of their number.  When
    none remains the function returns with nothing saved and nothing
    raised.  When one or two remain the stack cannot make an RGB image:
    [Image.fromarray] raises its [ValueError] and nothing is saved.  An
    image is saved only when at least three bands remain, and then it is
    the stack of the scaled bands. *)
Theorem convert_tif_to_png_drops_invalid_bands (bands : list Band) :
  let usable := filter (existsb tif2png.valid) bands in
  (forall band,
     tif2png.scale_band band = None <-> existsb tif2png.valid band = false) /\
  Forall2 (fun band scaled => tif2png.scale_band band = Some scaled)
          usable (tif2png.scale_bands bands) /\
  match tif2png.convert_tif_to_png bands with
  | Ok None => usable = []
  | Raise e => e = ValueError /\ (1 <= length usable < 3)%nat
  | Ok (Some img) =>
      (3 <= length usable)%nat /\
      img = map (map to_uint8) (tif2png.scale_bands bands)
  end.
Proof.
  intro usable. split; [exact scale_band_None|].
  pose proof (scale_bands_usable bands) as H. fold usable in H.
  split; [exact H|].
  pose proof (Forall2_length H) as Hlen. subst usable.
  unfold tif2png.convert_tif_to_png.
  destruct (tif2png.scale_bands bands) as [|s r] eqn:E.
  - inversion H. reflexivity.
  - rewrite <- E. rewrite <- E in Hlen.
    pose proof (fromarray_RGB_spec
                  (map (map to_uint8) (tif2png.scale_bands bands))) as F.
    rewrite length_map in F. rewrite <- Hlen in F.
    destruct (tif2png.fromarray_RGB
                (map (map to_uint8) (tif2png.scale_bands bands)))
      as [image|e]; cbn [bind].
    + destruct F as [F ->]. split; [exact F|reflexivity].
    + destruct F as [-> F]. split; [reflexivity|].
      rewrite E in Hlen. simpl in Hlen. unfold Band in *. lia.
Qed.

(** ** Clipping *)

Import raster_clipper.

(** Whatever the masking routine, an exception it raises leaves
    [clip_raster_with_polygon] unchanged and no dataset is written. *)
Lemma clip_reraises
    (mask : Dataset -> list GeoJSON -> bool -> result (Image * Affine.t))
    (src : Dataset) (polygon : GeoJSON) (e : exn) :
  mask src [make_2d polygon] true = Raise e ->
  clip_raster_with_polygon mask src polygon = Raise e.
Proof.
  intro H. unfold clip_raster_with_polygon. rewrite H. reflexivity.
Qed.

(** Whatever the masking routine, the dataset written carries the image and
    the transform it returned, the sizes of that image, and the source's
    other metadata. *)
Lemma clip_forwards
    (mask : Dataset -> list GeoJSON -> bool -> result (Image * Affine.t))
    (src : Dataset) (polygon : GeoJSON) (img : Image) (T : Affine.t) :
  mask src [make_2d polygon] true = Ok (img, T) ->
  clip_raster_with_polygon mask src polygon
  = Ok (mkDataset
          (mkMeta "GTiff"%string (crs (meta src)) (nodata (meta src))
                  (count (meta src)) (shape1 img) (shape2 img) T)
          img).
Proof.
  intro H. unfold clip_raster_with_polygon. rewrite H. reflexivity.
Qed.

Lemma pixel_rings_make_2d (inv : Affine.t) (polygon : GeoJSON) :
  mask_model.pixel_rings inv (make_2d polygon)
  = mask_model.pixel_rings inv polygon.
Proof.
  unfold mask_model.pixel_rings, make_2d.
  destruct (coordinates polygon) as [rings|] eqn:E; simpl;
    [|rewrite E; reflexivity].
  rewrite map_map. apply map_ext. intro ring. rewrite map_map. reflexivity.
Qed.

Lemma Qmaximum_le (b x : Q) (l : list Q) :
  x <= b -> Forall (fun y => y <= b) l -> mask_model.Qmaximum x l <= b.
Proof.
  intros Hx Hl. revert x Hx. unfold mask_model.Qmaximum.
  induction Hl as [|y l Hy Hl IH]; intros x Hx; simpl; [exact Hx|].
  apply IH. apply Q.max_lub; assumption.
Qed.

Lemma Qminimum_ge (b x : Q) (l : list Q) :
  b <= x -> Forall (fun y => b <= y) l -> b <= mask_model.Qminimum x l.
Proof.
  intros Hx Hl. revert x Hx. unfold mask_model.Qminimum.
  induction Hl as [|y l Hy Hl IH]; intros x Hx; simpl; [exact Hx|].
  apply IH. apply Q.min_glb; assumption.
Qed.

Lemma bounding_window_Ok (w h : Z) (pts : list (Q * Q))
    (win : mask_model.Window) :
  mask_model.bounding_window w h pts = Ok win ->
  (0 <= mask_model.left win < mask_model.right win)%Z /\
  (mask_model.right win <= w)%Z /\
  (0 <= mask_model.top win < mask_model.bottom win)%Z /\
  (mask_model.bottom win <= h)%Z.
Proof.
  unfold mask_model.bounding_window. destruct pts as [|p rest]; [discriminate|].
  match goal with
  | |- (if ?c then _ else _) = _ -> _ => destruct c eqn:E; [|discriminate]
  end.
  intro H. injection H as <-. simpl.
  apply andb_prop in E. destruct E as [E1 E2].
  apply Z.ltb_lt in E1. apply Z.ltb_lt in E2. lia.
Qed.

(** What a successful masking with [crop] returns. *)
Lemma mask_model_Ok (src : Dataset) (shapes : list GeoJSON) (img : Image)
    (T' : Affine.t) :
  mask_model.mask src shapes true = Ok (img, T') ->
  exists inv win,
    Affine.invert (transform (meta src)) = Ok inv /\
    mask_model.bounding_window (width (meta src)) (height (meta src))
      (concat (concat (map (mask_model.pixel_rings inv) shapes))) = Ok win /\
    img = map (mask_model.crop_band
                 (fun c r =>
                    existsb (fun rings =>
                               mask_model.inside rings
                                 (mask_model.cell_center c r))
                            (map (mask_model.pixel_rings inv) shapes))
                 win)
              (data src) /\
    T' = mask_model.window_transform (transform (meta src)) win.
Proof.
  unfold mask_model.mask, mask_model.clip_window.
  destruct (Affine.invert (transform (meta src))) as [inv|]; cbn [bind];
    [|discriminate].
  destruct (existsb _ (map (mask_model.pixel_rings inv) shapes));
    cbn [bind]; [|discriminate].
  destruct (mask_model.bounding_window _ _ _) as [win|] eqn:W; cbn [bind];
    [|discriminate].
  intro H. injection H as <- <-. exists inv, win.
  split; [reflexivity|]. split; [exact W|]. split; reflexivity.
Qed.

Lemma crop_band_shape (keep : nat -> nat -> bool) (win : mask_model.Window)
    (band : list (list Q)) :
  length (mask_model.crop_band keep win band)
    = Z.to_nat (mask_model.bottom win - mask_model.top win) /\
  Forall (fun row =>
            length row = Z.to_nat (mask_model.right win - mask_model.left win))
         (mask_model.crop_band keep win band).
Proof.
  unfold mask_model.crop_band. split.
  - rewrite length_map, length_seq. reflexivity.
  - apply Forall_forall. intros row Hrow. apply in_map_iff in Hrow.
    destruct Hrow as (r & <- & _). rewrite length_map, length_seq.
    reflexivity.
Qed.

(** A clip that returns never returns a raster of zero size. *)
Lemma clip_not_zero_size (src : Dataset) (polygon : GeoJSON) (dst : Dataset) :
  data src <> [] ->
  clip_raster_with_polygon mask_model.mask src polygon = Ok dst ->
  (0 < height (meta dst))%Z /\ (0 < width (meta dst))%Z.
Proof.
  intros Hne. unfold clip_raster_with_polygon.
  destruct (mask_model.mask src [make_2d polygon] true) as [[img T']|] eqn:M;
    [|discriminate].
  intro H. injection H as <-. simpl.
  apply mask_model_Ok in M. destruct M as (inv & win & _ & Hwin & -> & _).
  apply bounding_window_Ok in Hwin.
  destruct (data src) as [|band rest]; [contradiction|]. simpl.
  unfold shape1, shape2. simpl.
  destruct (crop_band_shape
              (fun c r =>
                 existsb (fun rings =>
                            mask_model.inside rings
                              (mask_model.cell_center c r))
                         (map (mask_model.pixel_rings inv) [make_2d polygon]))
              win band) as [Hrows Hcols].
  simpl in Hrows, Hcols. rewrite Hrows.
  destruct (mask_model.crop_band _ win band) as [|row rows] eqn:C.
  - simpl in Hrows. lia.
  - inversion Hcols as [|? ? Hrow _]; subst. simpl. rewrite Hrow. lia.
Qed.

(** A grid of negative width or height has no window. *)
Lemma bounding_window_negative (w h : Z) (pts : list (Q * Q)) :
  (w < 0 \/ h < 0)%Z ->
  mask_model.bounding_window w h pts = Raise EmptyIntersectionError.
Proof.
  intro H. unfold mask_model.bounding_window.
  destruct pts as [|p rest]; [reflexivity|].
  match goal with
  | |- (if ?c then _ else _) = _ => destruct c eqn:E; [|reflexivity]
  end.
  exfalso. apply andb_prop in E. destruct E as [E1 E2].
  apply Z.ltb_lt in E1. apply Z.ltb_lt in E2. lia.
Qed.

Lemma in_extentb_spec (w h : Z) (p : Q * Q) :
  mask_model.in_extentb w h p = true <-> mask_model.in_extent w h p.
Proof.
  unfold mask_model.in_extentb, mask_model.in_extent.
  rewrite !andb_true_iff, !Qle_bool_iff. tauto.
Qed.

Lemma on_segment_start (va vb : Q * Q) : mask_model.on_segment va va vb.
Proof.
  exists 0. split; [lra|]. split; ring.
Qed.

Lemma on_segment_end (va vb : Q * Q) : mask_model.on_segment vb va vb.
Proof.
  exists 1. split; [lra|]. split; ring.
Qed.

(** An edge that crosses a vertical line does so at a point of the edge. *)
Lemma cuts_vertical_sound (h : Z) (x0 : Q) (va vb : Q * Q) :
  mask_model.cuts_vertical h x0 va vb = true ->
  exists y,
    0 <= y <= inject_Z h /\ mask_model.on_segment (x0, y) va vb.
Proof.
  destruct va as [xa ya], vb as [xb yb]. unfold mask_model.cuts_vertical.
  destruct (Qeq_bool xa xb) eqn:E; [discriminate|].
  apply Qeq_bool_neq in E.
  rewrite !andb_true_iff, !Qle_bool_iff. intros [[[T0 T1] Y0] Y1].
  exists (ya + (x0 - xa) / (xb - xa) * (yb - ya)).
  split; [split; assumption|].
  exists ((x0 - xa) / (xb - xa)). split; [split; assumption|].
  cbn [fst snd]. split; [|reflexivity].
  field. intro Z0. apply E. lra.
Qed.

Lemma cuts_horizontal_sound (w : Z) (y0 : Q) (va vb : Q * Q) :
  mask_model.cuts_horizontal w y0 va vb = true ->
  exists x,
    0 <= x <= inject_Z w /\ mask_model.on_segment (x, y0) va vb.
Proof.
  destruct va as [xa ya], vb as [xb yb]. unfold mask_model.cuts_horizontal.
  destruct (Qeq_bool ya yb) eqn:E; [discriminate|].
  apply Qeq_bool_neq in E.
  rewrite !andb_true_iff, !Qle_bool_iff. intros [[[T0 T1] X0] X1].
  exists (xa + (y0 - ya) / (yb - ya) * (xb - xa)).
  split; [split; assumption|].
  exists ((y0 - ya) / (yb - ya)). split; [split; assumption|].
  cbn [fst snd]. split; [reflexivity|].
  field. intro Z0. apply E. lra.
Qed.

(** An edge that meets the extent has a point in it. *)
Lemma edge_meets_extent_sound (w h : Z) (va vb : Q * Q) :
  (0 <= w)%Z -> (0 <= h)%Z ->
  mask_model.edge_meets_extent w h (va, vb) = true ->
  exists p, mask_model.in_extent w h p /\ mask_model.on_segment p va vb.
Proof.
  intros Hw Hh.
  assert (Qw : 0 <= inject_Z w)
    by (change 0 with (inject_Z 0); rewrite <- Zle_Qle; exact Hw).
  assert (Qh : 0 <= inject_Z h)
    by (change 0 with (inject_Z 0); rewrite <- Zle_Qle; exact Hh).
  unfold mask_model.edge_meets_extent. rewrite !orb_true_iff.
  intros [[[[[A|B]|L]|R]|T]|D].
  - exists va. split; [apply in_extentb_spec; exact A|].
    apply on_segment_start.
  - exists vb. split; [apply in_extentb_spec; exact B|].
    apply on_segment_end.
  - destruct (cuts_vertical_sound _ _ _ _ L) as (y & Hy & Hs).
    exists (0, y). split; [|exact Hs]. split; cbn [fst snd]; [lra|exact Hy].
  - destruct (cuts_vertical_sound _ _ _ _ R) as (y & Hy & Hs).
    exists (inject_Z w, y). split; [|exact Hs].
    split; cbn [fst snd]; [lra|exact Hy].
  - destruct (cuts_horizontal_sound _ _ _ _ T) as (x & Hx & Hs).
    exists (x, 0). split; [|exact Hs]. split; cbn [fst snd]; [exact Hx|lra].
  - destruct (cuts_horizontal_sound _ _ _ _ D) as (x & Hx & Hs).
    exists (x, inject_Z h). split; [|exact Hs].
    split; cbn [fst snd]; [exact Hx|lra].
Qed.

(** The test of intersection is sound: a polygon that it finds to meet
    the extent has a point in the extent. *)
Lemma meets_extent_sound (w h : Z) (rings : list (list (Q * Q))) :
  (0 <= w)%Z -> (0 <= h)%Z ->
  mask_model.meets_extent w h rings = true ->
  exists p, mask_model.in_extent w h p /\ mask_model.in_polygon rings p.
Proof.
  intros Hw Hh. unfold mask_model.meets_extent. rewrite orb_true_iff.
  intros [E|C].
  - apply existsb_exists in E. destruct E as (ring & Hring & E).
    apply existsb_exists in E. destruct E as ([va vb] & Hedge & E).
    destruct (edge_meets_extent_sound w h va vb Hw Hh E) as (p & Hp & Hs).
    exists p. split; [exact Hp|]. right. exists ring, va, vb. auto.
  - exists (0, 0). split; [|left; exact C].
    split; cbn [fst snd]; split; try apply Qle_refl;
      change 0 with (inject_Z 0); rewrite <- Zle_Qle; assumption.
Qed.

(** With [crop], a polygon that has no point in the extent has no
    window. *)
Lemma clip_window_disjoint (src : Dataset) (rings : list (list (Q * Q))) :
  (forall p,
     mask_model.in_extent (width (meta src)) (height (meta src)) p ->
     ~ mask_model.in_polygon rings p) ->
  mask_model.clip_window src [rings] true = Raise EmptyIntersectionError.
Proof.
  intro Hdis. unfold mask_model.clip_window. cbn [existsb].
  rewrite orb_false_r.
  destruct (mask_model.meets_extent (width (meta src)) (height (meta src))
              rings) eqn:M; [|reflexivity].
  destruct (Z.le_gt_cases 0 (width (meta src))) as [Hw|Hw];
    [|apply bounding_window_negative; lia].
  destruct (Z.le_gt_cases 0 (height (meta src))) as [Hh|Hh];
    [|apply bounding_window_negative; lia].
  destruct (meets_extent_sound _ _ _ Hw Hh M) as (p & Hp & Hin).
  exfalso. exact (Hdis p Hp Hin).
Qed.

(** The crossing test without its division. *)
Lemma crosses_true (x y xi yi xj yj : Q) :
  mask_model.crosses (x, y) (xi, yi) (xj, yj) = true ->
  ((y < yi /\ yj <= y) \/ (yi <= y /\ y < yj)) /\
  exists s, s * (yj - yi) == (xj - xi) * (y - yi) /\ x < s + xi.
Proof.
  unfold mask_model.crosses. rewrite andb_true_iff, negb_true_iff.
  intros [Hy Hx]. apply Qltb_lt in Hx.
  assert (Hside : (y < yi /\ yj <= y) \/ (yi <= y /\ y < yj)).
  { destruct (Qltb y yi) eqn:Ei; destruct (Qltb y yj) eqn:Ej;
      try discriminate Hy.
    - left. split; [apply Qltb_lt; exact Ei|apply Qltb_ge; exact Ej].
    - right. split; [apply Qltb_ge; exact Ei|apply Qltb_lt; exact Ej]. }
  split; [exact Hside|].
  exists ((xj - xi) * (y - yi) / (yj - yi)). split; [|exact Hx].
  field. intro Z0. destruct Hside; lra.
Qed.

(** The triangle (90,192), (108,210), (90,210) lies beside the sample
    raster, whose extent is [100,108] x [194,200]: its bounding box covers
    the extent, and it has no point in it. *)
Lemma triangle_beside_small_raster :
  mask_model.disjoint_from_extent Examples.small_raster Examples.triangle.
Proof.
  eexists. split; [reflexivity|].
  intros [x y] [[Hx0 Hx1] [Hy0 Hy1]]. cbn [fst snd] in *.
  change (inject_Z (width (meta Examples.small_raster))) with 4 in Hx1.
  change (inject_Z (height (meta Examples.small_raster))) with 3 in Hy1.
  set (rings := mask_model.pixel_rings _ _).
  vm_compute in rings. subst rings.
  intros [Hin|(ring & va & vb & Hring & Hedge & t & Ht & Ex & Ey)].
  - cbn [mask_model.inside fold_right mask_model.crossings] in Hin.
    repeat match type of Hin with
    | context [mask_model.crosses ?p ?vi ?vj] =>
        let C := fresh "C" in
        destruct (mask_model.crosses p vi vj) eqn:C;
          [apply crosses_true in C;
           destruct C as [Hside (s & Hs & Hlt)]; exfalso;
           destruct Hside; lra|]
    end.
    discriminate Hin.
  - destruct Hring as [<-|[]]. cbn [mask_model.edges In] in Hedge.
    destruct Hedge as [E|[E|[E|[]]]]; injection E as <- <-;
      cbn [fst snd] in Ex, Ey; lra.
Qed.

(** C6.  With the masking routine of the specification, clipping with a
    polygon that does not intersect the raster's extent at all (mapped to
    the pixel space of the raster, it has no point in common with the
    rectangle of the grid) fails with [EmptyIntersectionError] and writes
    no dataset, also when the bounding box of the polygon covers the
    extent; and no clip ever returns a raster of zero height or width. *)
Theorem clip_outside_extent_fails (src : Dataset) (polygon : GeoJSON) :
  data src <> [] ->
  mask_model.disjoint_from_extent src polygon ->
  clip_raster_with_polygon mask_model.mask src polygon
    = Raise EmptyIntersectionError /\
  (forall other dst,
     clip_raster_with_polygon mask_model.mask src other = Ok dst ->
     (0 < height (meta dst))%Z /\ (0 < width (meta dst))%Z).
Proof.
  intros Hne (inv & Hinv & Hdis). split.
  - apply clip_reraises. unfold mask_model.mask. rewrite Hinv.
    cbn [bind map]. rewrite pixel_rings_make_2d.
    rewrite (clip_window_disjoint src _ Hdis). reflexivity.
  - intros other dst. apply clip_not_zero_size. exact Hne.
Qed.

Lemma clip_outside_extent_fails_witness :
  clip_raster_with_polygon mask_model.mask Examples.small_raster
    Examples.triangle
    = Raise EmptyIntersectionError /\
  (forall other dst,
     clip_raster_with_polygon mask_model.mask Examples.small_raster other
       = Ok dst ->
     (0 < height (meta dst))%Z /\ (0 < width (meta dst))%Z).
Proof.
  apply (clip_outside_extent_fails Examples.small_raster Examples.triangle).
  - discriminate.
  - exact triangle_beside_small_raster.
Defined.

Lemma Qminimum_le (x : Q) (l : list Q) (y : Q) :
  In y (x :: l) -> mask_model.Qminimum x l <= y.
Proof.
  unfold mask_model.Qminimum. revert x y.
  induction l as [|z l IH]; intros x y Hin; simpl in *.
  - destruct Hin as [E|[]]. rewrite E. apply Qle_refl.
  - destruct Hin as [E|[E|Hin]].
    + rewrite <- E. apply Qle_trans with (Qmin x z); [|apply Q.le_min_l].
      apply IH. left. reflexivity.
    + rewrite <- E. apply Qle_trans with (Qmin x z); [|apply Q.le_min_r].
      apply IH. left. reflexivity.
    + apply IH. right. exact Hin.
Qed.

Lemma Qmaximum_ge (x : Q) (l : list Q) (y : Q) :
  In y (x :: l) -> y <= mask_model.Qmaximum x l.
Proof.
  unfold mask_model.Qmaximum. revert x y.
  induction l as [|z l IH]; intros x y Hin; simpl in *.
  - destruct Hin as [E|[]]. rewrite E. apply Qle_refl.
  - destruct Hin as [E|[E|Hin]].
    + rewrite <- E. apply Qle_trans with (Qmax x z); [apply Q.le_max_l|].
      apply IH. left. reflexivity.
    + rewrite <- E. apply Qle_trans with (Qmax x z); [apply Q.le_max_r|].
      apply IH. left. reflexivity.
    + apply IH. right. exact Hin.
Qed.

Lemma map_nth_seq {A : Type} (l : list A) (d : A) :
  map (fun i => nth i l d) (seq 0 (length l)) = l.
Proof.
  induction l as [|x l IH]; simpl; [reflexivity|].
  f_equal. rewrite <- seq_shift, map_map. exact IH.
Qed.

(** Cropping to the whole grid with every cell kept changes nothing. *)
Lemma crop_band_full (keep : nat -> nat -> bool) (w h : Z)
    (band : list (list Q)) :
  (forall c r, (c < Z.to_nat w)%nat -> (r < Z.to_nat h)%nat ->
               keep c r = true) ->
  length band = Z.to_nat h ->
  Forall (fun row => length row = Z.to_nat w) band ->
  mask_model.crop_band keep (mask_model.mkWindow 0 0 w h) band = band.
Proof.
  intros Hkeep Hlen Hrows. unfold mask_model.crop_band. simpl.
  rewrite !Z.sub_0_r.
  transitivity (map (fun r => nth r band []) (seq 0 (length band)));
    [|apply map_nth_seq].
  rewrite Hlen. apply map_ext_in. intros r Hr. apply in_seq in Hr.
  assert (Hrow : length (nth r band []) = Z.to_nat w).
  { rewrite Forall_forall in Hrows. apply Hrows. apply nth_In. lia. }
  transitivity (map (fun c => nth c (nth r band []) 0)
                    (seq 0 (length (nth r band []))));
    [|apply map_nth_seq].
  rewrite Hrow. apply map_ext_in. intros c Hc. apply in_seq in Hc.
  rewrite Hkeep by lia. reflexivity.
Qed.

Lemma bounding_window_rectangle (w h : Z) (q0 q1 q2 q3 q4 : Q * Q) :
  (0 < w)%Z -> (0 < h)%Z ->
  rectangle_ring (inject_Z w) (inject_Z h) q0 q1 q2 q3 q4 ->
  mask_model.bounding_window w h [q0; q1; q2; q3; q4]
  = Ok (mask_model.mkWindow 0 0 w h).
Proof.
  intros Hw Hh (H0 & H1 & H2 & H3 & H4).
  destruct q0 as [x0 y0], q1 as [x1 y1], q2 as [x2 y2], q3 as [x3 y3],
    q4 as [x4 y4].
  unfold pt_eq in *. simpl in *.
  assert (Qw : 0 < inject_Z w)
    by (change 0 with (inject_Z 0); rewrite <- Zlt_Qlt; exact Hw).
  assert (Qh : 0 < inject_Z h)
    by (change 0 with (inject_Z 0); rewrite <- Zlt_Qlt; exact Hh).
  unfold mask_model.bounding_window. cbn [map fst snd].
  assert (L : mask_model.Qminimum x0 [x1; x2; x3; x4] == 0).
  { apply Qle_antisym.
    - apply Qle_trans with x0; [apply Qminimum_le; left; reflexivity|lra].
    - apply Qminimum_ge; [lra|]. repeat constructor; lra. }
  assert (R : mask_model.Qmaximum x0 [x1; x2; x3; x4] == inject_Z w).
  { apply Qle_antisym.
    - apply Qmaximum_le; [lra|]. repeat constructor; lra.
    - apply Qle_trans with x1; [lra|].
      apply Qmaximum_ge. right. left. reflexivity. }
  assert (T : mask_model.Qminimum y0 [y1; y2; y3; y4] == 0).
  { apply Qle_antisym.
    - apply Qle_trans with y0; [apply Qminimum_le; left; reflexivity|lra].
    - apply Qminimum_ge; [lra|]. repeat constructor; lra. }
  assert (B : mask_model.Qmaximum y0 [y1; y2; y3; y4] == inject_Z h).
  { apply Qle_antisym.
    - apply Qmaximum_le; [lra|]. repeat constructor; lra.
    - apply Qle_trans with y2; [lra|].
      apply Qmaximum_ge. right. right. left. reflexivity. }
  cbv [mask_model.Qminimum mask_model.Qmaximum fold_left] in L, R, T, B.
  rewrite (Qfloor_comp _ _ L), (Qfloor_comp _ _ T).
  rewrite (Qceiling_comp _ _ R), (Qceiling_comp _ _ B).
  rewrite !Qceiling_Z. change (Qfloor 0) with 0%Z.
  rewrite !Z.max_id, !Z.min_id.
  destruct (Z.ltb_spec 0 w); [|lia]. destruct (Z.ltb_spec 0 h); [|lia].
  reflexivity.
Qed.

(** The rectangle of the grid meets the extent. *)
Lemma meets_extent_rectangle (w h : Z) (q0 q1 q2 q3 q4 : Q * Q) :
  (0 < w)%Z -> (0 < h)%Z ->
  rectangle_ring (inject_Z w) (inject_Z h) q0 q1 q2 q3 q4 ->
  mask_model.meets_extent w h [[q0; q1; q2; q3; q4]] = true.
Proof.
  intros Hw Hh (H0 & _).
  assert (Qw : 0 < inject_Z w)
    by (change 0 with (inject_Z 0); rewrite <- Zlt_Qlt; exact Hw).
  assert (Qh : 0 < inject_Z h)
    by (change 0 with (inject_Z 0); rewrite <- Zlt_Qlt; exact Hh).
  assert (E : mask_model.in_extentb w h q0 = true).
  { apply in_extentb_spec. destruct H0 as [Hx Hy]. cbn [fst snd] in Hx, Hy.
    unfold mask_model.in_extent. rewrite Hx, Hy. lra. }
  unfold mask_model.meets_extent.
  cbn [existsb mask_model.edges mask_model.edge_meets_extent].
  rewrite E. reflexivity.
Qed.

(** A point strictly inside the rectangle is inside its ring. *)
Lemma crossings_rectangle (w h x y : Q) (q0 q1 q2 q3 q4 : Q * Q) :
  rectangle_ring w h q0 q1 q2 q3 q4 ->
  0 < x < w -> 0 < y < h ->
  mask_model.crossings (x, y) [q0; q1; q2; q3; q4] = true.
Proof.
  intros (H0 & H1 & H2 & H3 & H4) [Hx0 Hx1] [Hy0 Hy1].
  destruct q0 as [x0 y0], q1 as [x1 y1], q2 as [x2 y2], q3 as [x3 y3],
    q4 as [x4 y4].
  unfold pt_eq in *. simpl in *.
  assert (E01 : Qltb y y0 = false) by (apply Qltb_ge; lra).
  assert (E1 : Qltb y y1 = false) by (apply Qltb_ge; lra).
  assert (E2 : Qltb y y2 = true) by (apply Qltb_lt; lra).
  assert (E3 : Qltb y y3 = true) by (apply Qltb_lt; lra).
  assert (E4 : Qltb y y4 = false) by (apply Qltb_ge; lra).
  rewrite E01, E1, E2, E3, E4. simpl.
  assert (R : Qltb x ((x2 - x1) * (y - y1) / (y2 - y1) + x1) = true).
  { apply Qltb_lt.
    assert (Z0 : (x2 - x1) * (y - y1) / (y2 - y1) == 0).
    { setoid_replace (x2 - x1) with 0 by lra. unfold Qdiv.
      rewrite !Qmult_0_l. reflexivity. }
    rewrite Z0. lra. }
  assert (L : Qltb x ((x4 - x3) * (y - y3) / (y4 - y3) + x3) = false).
  { apply Qltb_ge.
    assert (Z0 : (x4 - x3) * (y - y3) / (y4 - y3) == 0).
    { setoid_replace (x4 - x3) with 0 by lra. unfold Qdiv.
      rewrite !Qmult_0_l. reflexivity. }
    rewrite Z0. lra. }
  rewrite R, L. reflexivity.
Qed.

Lemma cell_center_inside (w h : Z) (c r : nat) :
  (c < Z.to_nat w)%nat -> (r < Z.to_nat h)%nat ->
  0 < fst (mask_model.cell_center c r) < inject_Z w /\
  0 < snd (mask_model.cell_center c r) < inject_Z h.
Proof.
  intros Hc Hr. unfold mask_model.cell_center. simpl.
  assert (C0 : 0 <= inject_Z (Z.of_nat c))
    by (change 0 with (inject_Z 0); rewrite <- Zle_Qle; lia).
  assert (R0 : 0 <= inject_Z (Z.of_nat r))
    by (change 0 with (inject_Z 0); rewrite <- Zle_Qle; lia).
  assert (C1 : inject_Z (Z.of_nat c) + 1 <= inject_Z w).
  { change 1 with (inject_Z 1). rewrite <- inject_Z_plus, <- Zle_Qle. lia. }
  assert (R1 : inject_Z (Z.of_nat r) + 1 <= inject_Z h).
  { change 1 with (inject_Z 1). rewrite <- inject_Z_plus, <- Zle_Qle. lia. }
  lra.
Qed.

(** The extent polygon of a raster is, in pixel space, the rectangle of its
    grid. *)
Lemma extent_pixel_ring (src : Dataset) (inv : Affine.t) :
  Affine.invert (transform (meta src)) = Ok inv ->
  exists q0 q1 q2 q3 q4,
    mask_model.pixel_rings inv (mask_model.extent_polygon src)
      = [[q0; q1; q2; q3; q4]] /\
    rectangle_ring (inject_Z (width (meta src)))
                   (inject_Z (height (meta src))) q0 q1 q2 q3 q4.
Proof.
  intro Hinv.
  set (T := transform (meta src)) in *.
  set (w := inject_Z (width (meta src))).
  set (h := inject_Z (height (meta src))).
  exists (Affine.apply inv (Affine.apply T (0, 0))),
         (Affine.apply inv (Affine.apply T (w, 0))),
         (Affine.apply inv (Affine.apply T (w, h))),
         (Affine.apply inv (Affine.apply T (0, h))),
         (Affine.apply inv (Affine.apply T (0, 0))).
  split; [reflexivity|].
  repeat split; apply (apply_invert T inv _ Hinv).
Qed.

(** The transform of a window: the source's linear part, and the crop's
    pixel [(col, row)] where the source has [(col + left, row + top)]. *)
Lemma window_transform_spec (T : Affine.t) (win : mask_model.Window) :
  let T' := mask_model.window_transform T win in
  Affine.a T' = Affine.a T /\ Affine.b T' = Affine.b T /\
  Affine.d T' = Affine.d T /\ Affine.e T' = Affine.e T /\
  pt_eq (Affine.apply T' (0, 0))
        (Affine.apply T (inject_Z (mask_model.left win),
                         inject_Z (mask_model.top win))) /\
  forall col row,
    pt_eq (Affine.apply T' (col, row))
          (Affine.apply T (col + inject_Z (mask_model.left win),
                           row + inject_Z (mask_model.top win))).
Proof.
  destruct T as [a b c d e f]. unfold mask_model.window_transform, pt_eq.
  simpl. repeat split; try reflexivity; try ring.
  all: intros; simpl; ring.
Qed.

(** C7.  With the masking routine of the specification, on a well-formed
    raster: clipping with the polygon of the raster's full extent writes a
    dataset with the same band values, the same sizes and a transform equal
    to the source's; and whenever a clip returns, its transform has the
    source's linear part (a, b, d, e) and maps pixel (0, 0) of the crop,
    and every pixel (col, row), to the geographic point of pixel
    (windowLeft, windowTop), respectively (col + windowLeft, row +
    windowTop), of the source, for the window of the polygon. *)
Theorem clip_full_extent_and_window (src : Dataset) :
  mask_model.well_formed src ->
  (exists dst,
     clip_raster_with_polygon mask_model.mask src
       (mask_model.extent_polygon src) = Ok dst /\
     data dst = data src /\
     Affine.eq (transform (meta dst)) (transform (meta src)) /\
     height (meta dst) = height (meta src) /\
     width (meta dst) = width (meta src)) /\
  (forall polygon dst,
     clip_raster_with_polygon mask_model.mask src polygon = Ok dst ->
     exists inv win,
       Affine.invert (transform (meta src)) = Ok inv /\
       mask_model.bounding_window (width (meta src)) (height (meta src))
         (concat (mask_model.pixel_rings inv polygon)) = Ok win /\
       Affine.a (transform (meta dst)) = Affine.a (transform (meta src)) /\
       Affine.b (transform (meta dst)) = Affine.b (transform (meta src)) /\
       Affine.d (transform (meta dst)) = Affine.d (transform (meta src)) /\
       Affine.e (transform (meta dst)) = Affine.e (transform (meta src)) /\
       pt_eq (Affine.apply (transform (meta dst)) (0, 0))
             (Affine.apply (transform (meta src))
                (inject_Z (mask_model.left win),
                 inject_Z (mask_model.top win))) /\
       forall col row,
         pt_eq (Affine.apply (transform (meta dst)) (col, row))
               (Affine.apply (transform (meta src))
                  (col + inject_Z (mask_model.left win),
                   row + inject_Z (mask_model.top win)))).
Proof.
  intros (Hw & Hh & Hdet & Hne & Hbands). split.
  - destruct (invert_ok _ Hdet) as [inv Hinv].
    destruct (extent_pixel_ring src inv Hinv)
      as (q0 & q1 & q2 & q3 & q4 & Hring & Hrect).
    assert (M : mask_model.mask src
                  [make_2d (mask_model.extent_polygon src)] true
                = Ok (data src,
                      mask_model.window_transform (transform (meta src))
                        (mask_model.mkWindow 0 0 (width (meta src))
                           (height (meta src))))).
    { unfold mask_model.mask, mask_model.clip_window. rewrite Hinv.
      cbn [bind map]. rewrite pixel_rings_make_2d, Hring.
      cbn [existsb].
      rewrite (meets_extent_rectangle _ _ _ _ _ _ _ Hw Hh Hrect).
      cbn [orb concat app].
      rewrite (bounding_window_rectangle _ _ _ _ _ _ _ Hw Hh Hrect).
      cbn [bind].
      match goal with
      | |- Ok (?m, _) = _ => assert (D : m = data src); [|rewrite D; reflexivity]
      end.
      transitivity (map (fun band : list (list Q) => band) (data src));
        [|apply map_id].
      apply map_ext_in. intros band Hband.
      rewrite Forall_forall in Hbands. destruct (Hbands band Hband).
      apply crop_band_full; try assumption.
      intros c r Hc Hr. cbn [existsb mask_model.inside fold_right].
      destruct (cell_center_inside _ _ c r Hc Hr) as [Hx Hy].
      destruct (mask_model.cell_center c r) as [x y]. simpl in Hx, Hy.
      rewrite (crossings_rectangle _ _ x y _ _ _ _ _ Hrect Hx Hy).
      reflexivity. }
    rewrite (clip_forwards _ _ _ _ _ M). eexists. split; [reflexivity|].
    cbn [data meta transform height width].
    split; [reflexivity|]. split.
    + destruct (transform (meta src)) as [a b c d e f].
      unfold mask_model.window_transform, Affine.eq. simpl.
      repeat split; try reflexivity; ring.
    + destruct (data src) as [|band rest]; [contradiction|].
      inversion Hbands as [|? ? [Hlen Hrows] _]; subst.
      unfold shape1, shape2. cbn [hd]. rewrite Hlen.
      destruct band as [|row rows]; [simpl in Hlen; lia|].
      inversion Hrows as [|? ? Hrow _]; subst. cbn [hd]. rewrite Hrow.
      lia.
  - intros polygon dst. unfold clip_raster_with_polygon.
    destruct (mask_model.mask src [make_2d polygon] true)
      as [[img T']|] eqn:M; [|discriminate].
    intro H. injection H as <-. cbn [meta transform].
    apply mask_model_Ok in M.
    destruct M as (inv & win & Hinv & Hwin & _ & ->).
    cbn [map concat] in Hwin.
    rewrite pixel_rings_make_2d, app_nil_r in Hwin.
    exists inv, win. split; [exact Hinv|]. split; [exact Hwin|].
    exact (window_transform_spec (transform (meta src)) win).
Qed.

Lemma clip_full_extent_and_window_witness :
  let src := Examples.small_raster in
  (exists dst,
     clip_raster_with_polygon mask_model.mask src
       (mask_model.extent_polygon src) = Ok dst /\
     data dst = data src /\
     Affine.eq (transform (meta dst)) (transform (meta src)) /\
     height (meta dst) = height (meta src) /\
     width (meta dst) = width (meta src)) /\
  (forall polygon dst,
     clip_raster_with_polygon mask_model.mask src polygon = Ok dst ->
     exists inv win,
       Affine.invert (transform (meta src)) = Ok inv /\
       mask_model.bounding_window (width (meta src)) (height (meta src))
         (concat (mask_model.pixel_rings inv polygon)) = Ok win /\
       Affine.a (transform (meta dst)) = Affine.a (transform (meta src)) /\
       Affine.b (transform (meta dst)) = Affine.b (transform (meta src)) /\
       Affine.d (transform (meta dst)) = Affine.d (transform (meta src)) /\
       Affine.e (transform (meta dst)) = Affine.e (transform (meta src)) /\
       pt_eq (Affine.apply (transform (meta dst)) (0, 0))
             (Affine.apply (transform (meta src))
                (inject_Z (mask_model.left win),
                 inject_Z (mask_model.top win))) /\
       forall col row,
         pt_eq (Affine.apply (transform (meta dst)) (col, row))
               (Affine.apply (transform (meta src))
                  (col + inject_Z (mask_model.left win),
                   row + inject_Z (mask_model.top win)))).
Proof.
  apply (clip_full_extent_and_window Examples.small_raster).
  unfold mask_model.well_formed. simpl.
  split; [lia|]. split; [lia|]. split.
  - intro H. vm_compute in H. discriminate.
  - split; [discriminate|]. repeat constructor.
Defined.


(** * Further properties of the scripts *)

(** ** Label files: closed form, ranges *)

Lemma north_up_invertible (T : Affine.t) :
  Affine.north_up T -> ~ Affine.determinant T == 0.
Proof.
  intros [[Hb Hd] [Ha He]]. unfold Affine.determinant. rewrite Hb.
  assert (0 < Affine.a T * - Affine.e T) by (apply Qmult_lt_0_compat; lra).
  lra.
Qed.

Lemma Qdiv_unit (n d : Q) : 0 < d -> 0 <= n -> n <= d -> 0 <= n / d <= 1.
Proof.
  intros Hd H0 H1. split.
  - apply Qle_shift_div_l; [exact Hd|]. lra.
  - apply Qle_shift_div_r; [exact Hd|]. lra.
Qed.

Lemma inject_Z_pos (n : Z) : (0 < n)%Z -> 0 < inject_Z n.
Proof.
  intro H. change 0 with (inject_Z 0). rewrite <- Zlt_Qlt. exact H.
Qed.

Lemma yolo_line_closed_form
    (minx miny maxx maxy : Q) (attrs : list (String.string * Z))
    (T : Affine.t) (w h : Z) :
  Affine.rotation_free T -> ~ Affine.determinant T == 0 ->
  w <> 0%Z -> h <> 0%Z ->
  exists line,
    tif_shp_to_yolo_png_converter.yolo_line
      (mkFeature (minx, miny, maxx, maxy) attrs) T w h = Ok line /\
    ann_eq line
      (mkAnnotation 0
         (((minx + maxx) / 2 - Affine.c T) / (Affine.a T * inject_Z w))
         ((Affine.f T - (miny + maxy) / 2) / (- Affine.e T * inject_Z h))
         ((maxx - minx) / (Affine.a T * inject_Z w))
         ((maxy - miny) / (- Affine.e T * inject_Z h))).
Proof.
  intros [Hb Hd] Hdet Hw Hh.
  unfold tif_shp_to_yolo_png_converter.yolo_line,
    tif_shp_to_yolo_png_converter.convert_geo_to_pixel_coords.
  cbn [bounds].
  unfold Affine.invert. rewrite (Qeq_bool_false _ _ Hdet). simpl.
  rewrite !pydiv_ok by assumption. simpl.
  eexists. split; [reflexivity|].
  pose proof (inject_Z_nonzero w Hw) as Hw'.
  pose proof (inject_Z_nonzero h Hh) as Hh'.
  destruct T as [a b c d e f]. unfold Affine.determinant in *.
  unfold ann_eq. simpl in *.
  assert (Ha : ~ a * e == 0).
  { intro E. apply Hdet. rewrite Hb, E. ring. }
  assert (Ha' : ~ a == 0) by (intro E; apply Ha; rewrite E; ring).
  assert (He' : ~ e == 0) by (intro E; apply Ha; rewrite E; ring).
  split; [reflexivity|].
  rewrite !Hb, !Hd.
  repeat split; field; repeat split; try assumption;
    intro E; apply Ha; rewrite <- E; ring.
Qed.

(** Under a rotation-free, invertible transform the line written for a
    feature has a closed form: the centre is the centre of the box in
    pixels over the image size, the width is [(maxx - minx) / (a * w)] and
    the height is [(maxy - miny) / (- e * h)]. *)
Theorem yolo_line_rotation_free
    (minx miny maxx maxy : Q) (attrs : list (String.string * Z))
    (T : Affine.t) (w h : Z) :
  Affine.rotation_free T -> ~ Affine.determinant T == 0 ->
  w <> 0%Z -> h <> 0%Z ->
  exists line,
    tif_shp_to_yolo_png_converter.yolo_line
      (mkFeature (minx, miny, maxx, maxy) attrs) T w h = Ok line /\
    ann_eq line
      (mkAnnotation 0
         (((minx + maxx) / 2 - Affine.c T) / (Affine.a T * inject_Z w))
         ((Affine.f T - (miny + maxy) / 2) / (- Affine.e T * inject_Z h))
         ((maxx - minx) / (Affine.a T * inject_Z w))
         ((maxy - miny) / (- Affine.e T * inject_Z h))).
Proof.
  intros Hrf Hdet Hw Hh.
  destruct (yolo_line_closed_form minx miny maxx maxy attrs T w h
              Hrf Hdet Hw Hh) as (line & Hline & Heq).
  exists line. split; assumption.
Qed.

Lemma yolo_line_rotation_free_witness :
  exists line,
    tif_shp_to_yolo_png_converter.yolo_line
      (mkFeature (102, 196, 106, 200) []) Examples.north_up_2 4 3
    = Ok line /\
    ann_eq line
      (mkAnnotation 0
         (((102 + 106) / 2 - Affine.c Examples.north_up_2)
          / (Affine.a Examples.north_up_2 * inject_Z 4))
         ((Affine.f Examples.north_up_2 - (196 + 200) / 2)
          / (- Affine.e Examples.north_up_2 * inject_Z 3))
         ((106 - 102) / (Affine.a Examples.north_up_2 * inject_Z 4))
         ((200 - 196) / (- Affine.e Examples.north_up_2 * inject_Z 3))).
Proof.
  apply (yolo_line_rotation_free 102 196 106 200 [] Examples.north_up_2 4 3).
  - split; reflexivity.
  - intro H. vm_compute in H. discriminate.
  - lia.
  - lia.
Defined.

(** Under a north-up transform, the line written for an ordered box that
    lies within the raster's extent is a valid normalised box: its width
    and height are in [0, 1] and its four edges are in [0, 1]. *)
Theorem yolo_line_within_unit_square
    (minx miny maxx maxy : Q) (attrs : list (String.string * Z))
    (T : Affine.t) (w h : Z) :
  Affine.north_up T -> (0 < w)%Z -> (0 < h)%Z ->
  minx <= maxx -> miny <= maxy ->
  Affine.c T <= minx -> maxx <= Affine.c T + Affine.a T * inject_Z w ->
  Affine.f T + Affine.e T * inject_Z h <= miny -> maxy <= Affine.f T ->
  exists xc yc wn hn,
    tif_shp_to_yolo_png_converter.yolo_line
      (mkFeature (minx, miny, maxx, maxy) attrs) T w h
    = Ok (mkAnnotation 0 xc yc wn hn) /\
    0 <= wn <= 1 /\ 0 <= hn <= 1 /\
    0 <= xc - wn / 2 /\ xc + wn / 2 <= 1 /\
    0 <= yc - hn / 2 /\ yc + hn / 2 <= 1.
Proof.
  intros Hnu Hw Hh Hx Hy Hl Hr Hb Ht.
  pose proof (north_up_invertible T Hnu) as Hdet.
  destruct Hnu as [Hrf [Ha He]].
  destruct (yolo_line_closed_form minx miny maxx maxy attrs T w h Hrf Hdet)
    as ([cls xc yc wn hn] & Hline & Hc & Hxc & Hyc & Hwn & Hhn); try lia.
  simpl in Hc, Hxc, Hyc, Hwn, Hhn. subst cls.
  exists xc, yc, wn, hn. split; [exact Hline|].
  pose proof (inject_Z_pos w Hw) as Qw. pose proof (inject_Z_pos h Hh) as Qh.
  set (A := Affine.a T * inject_Z w) in *.
  set (E := - Affine.e T * inject_Z h) in *.
  assert (HA : 0 < A) by (apply Qmult_lt_0_compat; lra).
  assert (HE : 0 < E) by (apply Qmult_lt_0_compat; lra).
  assert (HEb : Affine.f T - E <= miny).
  { unfold E. setoid_replace (Affine.f T - - Affine.e T * inject_Z h)
      with (Affine.f T + Affine.e T * inject_Z h) by ring. exact Hb. }
  destruct (Qdiv_unit (minx - Affine.c T) A HA) as [X1a X1b]; try lra.
  destruct (Qdiv_unit (maxx - Affine.c T) A HA) as [X2a X2b]; try lra.
  destruct (Qdiv_unit (maxx - minx) A HA) as [Wa Wb]; try lra.
  destruct (Qdiv_unit (Affine.f T - maxy) E HE) as [Y1a Y1b]; try lra.
  destruct (Qdiv_unit (Affine.f T - miny) E HE) as [Y2a Y2b]; try lra.
  destruct (Qdiv_unit (maxy - miny) E HE) as [Ha' Hb']; try lra.
  assert (EX1 : xc - wn / 2 == (minx - Affine.c T) / A)
    by (rewrite Hxc, Hwn; field; lra).
  assert (EX2 : xc + wn / 2 == (maxx - Affine.c T) / A)
    by (rewrite Hxc, Hwn; field; lra).
  assert (EY1 : yc - hn / 2 == (Affine.f T - maxy) / E)
    by (rewrite Hyc, Hhn; field; lra).
  assert (EY2 : yc + hn / 2 == (Affine.f T - miny) / E)
    by (rewrite Hyc, Hhn; field; lra).
  rewrite EX1, EX2, EY1, EY2, Hwn, Hhn. repeat split; assumption.
Qed.

Lemma yolo_line_within_unit_square_witness :
  exists xc yc wn hn,
    tif_shp_to_yolo_png_converter.yolo_line
      (mkFeature (102, 196, 106, 200) []) Examples.north_up_2 4 3
    = Ok (mkAnnotation 0 xc yc wn hn) /\
    0 <= wn <= 1 /\ 0 <= hn <= 1 /\
    0 <= xc - wn / 2 /\ xc + wn / 2 <= 1 /\
    0 <= yc - hn / 2 /\ yc + hn / 2 <= 1.
Proof.
  apply (yolo_line_within_unit_square 102 196 106 200 []
           Examples.north_up_2 4 3);
    try lia; try discriminate.
  repeat split; reflexivity.
Defined.

(** Under a rotation-free transform whose rows grow northwards ([e > 0]),
    the height written for a box with [miny < maxy] is negative. *)
Theorem yolo_line_negative_height
    (minx miny maxx maxy : Q) (attrs : list (String.string * Z))
    (T : Affine.t) (w h : Z) :
  Affine.rotation_free T -> ~ Affine.determinant T == 0 ->
  w <> 0%Z -> (0 < h)%Z -> 0 < Affine.e T -> miny < maxy ->
  exists xc yc wn hn,
    tif_shp_to_yolo_png_converter.yolo_line
      (mkFeature (minx, miny, maxx, maxy) attrs) T w h
    = Ok (mkAnnotation 0 xc yc wn hn) /\
    hn < 0.
Proof.
  intros Hrf Hdet Hw Hh He Hy.
  destruct (yolo_line_closed_form minx miny maxx maxy attrs T w h Hrf Hdet)
    as ([cls xc yc wn hn] & Hline & Hc & _ & _ & _ & Hhn); try lia.
  simpl in Hc, Hhn. subst cls.
  exists xc, yc, wn, hn. split; [exact Hline|].
  pose proof (inject_Z_pos h Hh) as Qh.
  set (E := Affine.e T * inject_Z h).
  assert (HE : 0 < E) by (apply Qmult_lt_0_compat; lra).
  assert (P : 0 < (maxy - miny) / E).
  { apply Qlt_shift_div_l; [exact HE|]. lra. }
  assert (N : hn == - ((maxy - miny) / E)).
  { rewrite Hhn. unfold E. field. split; lra. }
  lra.
Qed.

Lemma yolo_line_negative_height_witness :
  exists xc yc wn hn,
    tif_shp_to_yolo_png_converter.yolo_line
      (mkFeature (10, 10, 30, 40) []) Examples.identity_like 100 100
    = Ok (mkAnnotation 0 xc yc wn hn) /\
    hn < 0.
Proof.
  apply (yolo_line_negative_height 10 10 30 40 [] Examples.identity_like
           100 100);
    try lia; try reflexivity.
  - split; reflexivity.
  - intro H. vm_compute in H. discriminate.
Defined.

(** ** Detections: boxes, drawings and the way back *)

(** The geographic box of a detection is the image, under the raster's
    transform, of the corners of the rectangle that [draw_bounding_boxes]
    draws for the same line on an image of the raster's size: the column
    of the top-left and the row of the bottom-right corner, then the
    column of the bottom-right and the row of the top-left. *)
Theorem detection_geom_of_drawn_rectangle
    (line : Annotation) (T : Affine.t) (w h : Z) :
  let '(l, t, r, b) := draw_bboxes.draw_rectangle line w h in
  box_eq (yolo2shp.detection_geom line T w h)
         (fst (Affine.apply T (l, t)), snd (Affine.apply T (r, b)),
          fst (Affine.apply T (r, b)), snd (Affine.apply T (l, t))).
Proof.
  destruct line as [cls xc yc wn hn], T as [a b c d e f].
  unfold draw_bboxes.draw_rectangle, yolo2shp.detection_geom, box_eq.
  simpl. repeat split; field.
Qed.

(** A line whose box lies in the unit square is drawn inside the image:
    on an image of positive size the rectangle has
    [0 <= left <= right <= width] and [0 <= top <= bottom <= height]. *)
Theorem draw_rectangle_inside_image
    (cls : Z) (xc yc wn hn : Q) (w h : Z) :
  (0 < w)%Z -> (0 < h)%Z -> 0 <= wn -> 0 <= hn ->
  0 <= xc - wn / 2 -> xc + wn / 2 <= 1 ->
  0 <= yc - hn / 2 -> yc + hn / 2 <= 1 ->
  let '(l, t, r, b) :=
    draw_bboxes.draw_rectangle (mkAnnotation cls xc yc wn hn) w h in
  0 <= l /\ l <= r /\ r <= inject_Z w /\
  0 <= t /\ t <= b /\ b <= inject_Z h.
Proof.
  intros Hw Hh Hwn Hhn Hx0 Hx1 Hy0 Hy1.
  pose proof (inject_Z_pos w Hw) as Qw. pose proof (inject_Z_pos h Hh) as Qh.
  unfold draw_bboxes.draw_rectangle.
  set (W := inject_Z w) in *. set (H := inject_Z h) in *.
  assert (Ew : wn * W / 2 == wn / 2 * W) by field.
  assert (Eh : hn * H / 2 == hn / 2 * H) by field.
  rewrite !Ew, !Eh.
  assert (Pw : 0 <= wn / 2) by (apply Qle_shift_div_l; lra).
  assert (Ph : 0 <= hn / 2) by (apply Qle_shift_div_l; lra).
  set (hw := wn / 2) in *. set (hh := hn / 2) in *.
  assert (L : 0 <= (xc - hw) * W) by (apply Qmult_le_0_compat; lra).
  assert (R : 0 <= (1 - (xc + hw)) * W) by (apply Qmult_le_0_compat; lra).
  assert (M : 0 <= hw * W) by (apply Qmult_le_0_compat; lra).
  assert (U : 0 <= (yc - hh) * H) by (apply Qmult_le_0_compat; lra).
  assert (D : 0 <= (1 - (yc + hh)) * H) by (apply Qmult_le_0_compat; lra).
  assert (N : 0 <= hh * H) by (apply Qmult_le_0_compat; lra).
  repeat split; lra.
Qed.

Lemma draw_rectangle_inside_image_witness :
  let '(l, t, r, b) :=
    draw_bboxes.draw_rectangle (mkAnnotation 0 0.5 0.5 0.2 0.2) 200 200 in
  0 <= l /\ l <= r /\ r <= inject_Z 200 /\
  0 <= t /\ t <= b /\ b <= inject_Z 200.
Proof.
  apply (draw_rectangle_inside_image 0 0.5 0.5 0.2 0.2 200 200);
    try lia; discriminate.
Defined.

(** Under a north-up transform, a detection of non-negative width and
    height gives an ordered box, and writing the label of that box with
    [shp_to_yolo]'s loop body gives the detection back, with class 0. *)
Theorem detection_geom_roundtrip
    (cls : Z) (xc yc wn hn : Q) (attrs : list (String.string * Z))
    (T : Affine.t) (w h : Z) :
  Affine.north_up T -> (0 < w)%Z -> (0 < h)%Z -> 0 <= wn -> 0 <= hn ->
  let '(x0, y0, x1, y1) :=
    yolo2shp.detection_geom (mkAnnotation cls xc yc wn hn) T w h in
  x0 <= x1 /\ y0 <= y1 /\
  exists line,
    tif_shp_to_yolo_png_converter.yolo_line
      (mkFeature (x0, y0, x1, y1) attrs) T w h = Ok line /\
    ann_eq line (mkAnnotation 0 xc yc wn hn).
Proof.
  intros Hnu Hw Hh Hwn Hhn.
  pose proof (north_up_invertible T Hnu) as Hdet.
  destruct Hnu as [[Hb Hd] [Ha He]].
  pose proof (inject_Z_pos w Hw) as Qw. pose proof (inject_Z_pos h Hh) as Qh.
  destruct T as [a b c d e f]. unfold yolo2shp.detection_geom.
  simpl in *.
  set (W := inject_Z w) in *. set (H := inject_Z h) in *.
  assert (Pw : 0 <= wn / 2) by (apply Qle_shift_div_l; lra).
  assert (Ph : 0 <= hn / 2) by (apply Qle_shift_div_l; lra).
  assert (M : 0 <= wn / 2 * W * a).
  { apply Qmult_le_0_compat; [apply Qmult_le_0_compat|]; lra. }
  assert (N : 0 <= hn / 2 * H * - e).
  { apply Qmult_le_0_compat; [apply Qmult_le_0_compat|]; lra. }
  split; [|split].
  - rewrite !Hb. set (hw := wn / 2) in *. lra.
  - rewrite !Hd. set (hh := hn / 2) in *. lra.
  - destruct (yolo_line_closed_form
                ((xc - wn / 2) * W * a + (yc - hn / 2) * H * b + c)
                ((xc + wn / 2) * W * d + (yc + hn / 2) * H * e + f)
                ((xc + wn / 2) * W * a + (yc + hn / 2) * H * b + c)
                ((xc - wn / 2) * W * d + (yc - hn / 2) * H * e + f)
                attrs (Affine.mk a b c d e f) w h)
      as (line & Hline & Hc & H1 & H2 & H3 & H4);
      [split; assumption|exact Hdet|lia|lia|].
    exists line. split; [exact Hline|].
    unfold ann_eq. simpl in *. fold W in H1, H2, H3, H4.
    fold H in H1, H2, H3, H4.
    split; [exact Hc|].
    rewrite H1, H2, H3, H4. rewrite !Hb, !Hd.
    repeat split; field; lra.
Qed.

Lemma detection_geom_roundtrip_witness :
  let '(x0, y0, x1, y1) :=
    yolo2shp.detection_geom (mkAnnotation 5 0.5 0.5 0.2 0.2)
      Examples.north_up_2 4 3 in
  x0 <= x1 /\ y0 <= y1 /\
  exists line,
    tif_shp_to_yolo_png_converter.yolo_line
      (mkFeature (x0, y0, x1, y1) []) Examples.north_up_2 4 3 = Ok line /\
    ann_eq line (mkAnnotation 0 0.5 0.5 0.2 0.2).
Proof.
  apply (detection_geom_roundtrip 5 0.5 0.5 0.2 0.2 []
           Examples.north_up_2 4 3);
    try lia; try discriminate.
  repeat split; reflexivity.
Defined.

(** ** Percentiles *)

Lemma sorted_nth_le (s : list Q) :
  Sorted Qle s ->
  forall i j, (i <= j < length s)%nat -> nth i s 0 <= nth j s 0.
Proof.
  intro Hs. apply Sorted_StronglySorted in Hs;
    [|intros x y z; apply Qle_trans].
  induction Hs as [|x s Hs IH Hx]; intros i j Hij; simpl in *; [lia|].
  destruct i as [|i], j as [|j]; try lia.
  - apply Qle_refl.
  - rewrite Forall_forall in Hx. apply Hx. apply nth_In. lia.
  - apply IH. lia.
Qed.

(** The facts about the two ranks that [percentile] reads. *)
Lemma percentile_ranks (l : list Q) (q : Q) :
  l <> [] -> 0 <= q <= 100 ->
  let n := Z.of_nat (length (sort l)) in
  let v := (inject_Z n - 1) * (q / 100) in
  (1 <= n)%Z /\ (0 <= Qfloor v <= n - 1)%Z /\
  0 <= v - inject_Z (Qfloor v) /\ v - inject_Z (Qfloor v) <= 1 /\
  0 <= v /\ v <= inject_Z (n - 1).
Proof.
  intros Hne [Hq0 Hq1] n v.
  assert (Hn : (1 <= n)%Z).
  { unfold n. rewrite sort_length. destruct l; [contradiction|].
    simpl. lia. }
  assert (Hn1 : inject_Z n - 1 == inject_Z (n - 1)).
  { unfold Qeq. simpl. lia. }
  assert (Hm : 0 <= inject_Z (n - 1)).
  { change 0 with (inject_Z 0). rewrite <- Zle_Qle. lia. }
  assert (Hr0 : 0 <= q / 100).
  { apply Qle_shift_div_l; [reflexivity|]. lra. }
  assert (Hr1 : q / 100 <= 1).
  { apply Qle_shift_div_r; [reflexivity|]. lra. }
  assert (Hv0 : 0 <= v).
  { unfold v. rewrite Hn1. apply Qmult_le_0_compat; assumption. }
  assert (Hv1 : v <= inject_Z (n - 1)).
  { unfold v. rewrite Hn1. set (m := inject_Z (n - 1)) in *.
    set (r := q / 100) in *.
    assert (0 <= m * (1 - r)) by (apply Qmult_le_0_compat; lra).
    lra. }
  assert (Hf0 : (0 <= Qfloor v)%Z).
  { change 0%Z with (Qfloor 0). apply Qfloor_resp_le. exact Hv0. }
  assert (Hf1 : (Qfloor v <= n - 1)%Z).
  { rewrite <- (Qfloor_Z (n - 1)). apply Qfloor_resp_le. exact Hv1. }
  pose proof (Qfloor_le v) as Hfl.
  pose proof (Qlt_floor v) as Hlt.
  assert (Hs : inject_Z (Qfloor v + 1) == inject_Z (Qfloor v) + 1).
  { rewrite inject_Z_plus. reflexivity. }
  repeat split; try assumption; lra.
Qed.

(** A percentile lies between any bounds of the samples. *)
Theorem percentile_between (l : list Q) (q lo hi : Q) :
  l <> [] -> 0 <= q <= 100 ->
  Forall (fun x => lo <= x <= hi) l ->
  lo <= percentile l q <= hi.
Proof.
  intros Hne Hq Hall.
  destruct (percentile_ranks l q Hne Hq) as (Hn & Hk & Hg0 & Hg1 & _ & _).
  unfold percentile.
  pose proof (sort_Forall _ _ Hall) as Hs.
  set (s := sort l) in *. set (n := Z.of_nat (length s)) in *.
  set (v := (inject_Z n - 1) * (q / 100)) in *.
  set (g := v - inject_Z (Qfloor v)) in *.
  assert (Ha : lo <= nth (Z.to_nat (Qfloor v)) s 0 <= hi).
  { apply (nth_Forall (fun x => lo <= x <= hi)); [exact Hs|].
    unfold n in *. lia. }
  assert (Hb : lo <= nth (Z.to_nat (Z.min (Qfloor v + 1) (n - 1))) s 0 <= hi).
  { apply (nth_Forall (fun x => lo <= x <= hi)); [exact Hs|].
    unfold n in *. lia. }
  set (a := nth (Z.to_nat (Qfloor v)) s 0) in *.
  set (b := nth (Z.to_nat (Z.min (Qfloor v + 1) (n - 1))) s 0) in *.
  assert (P1 : 0 <= (a - lo) * (1 - g)) by (apply Qmult_le_0_compat; lra).
  assert (P2 : 0 <= (b - lo) * g) by (apply Qmult_le_0_compat; lra).
  assert (P3 : 0 <= (hi - a) * (1 - g)) by (apply Qmult_le_0_compat; lra).
  assert (P4 : 0 <= (hi - b) * g) by (apply Qmult_le_0_compat; lra).
  split; lra.
Qed.

Lemma percentile_between_witness :
  0 <= percentile [100; 0; 50] 98 <= 100.
Proof.
  apply (percentile_between [100; 0; 50] 98 0 100).
  - discriminate.
  - split; discriminate.
  - repeat constructor; discriminate.
Defined.

(** Percentiles grow with the rank asked for; in particular the 2nd
    percentile of a band never exceeds the 98th. *)
Theorem percentile_monotone (l : list Q) (q1 q2 : Q) :
  l <> [] -> 0 <= q1 -> q1 <= q2 -> q2 <= 100 ->
  percentile l q1 <= percentile l q2.
Proof.
  intros Hne H0 H12 H100.
  destruct (percentile_ranks l q1 Hne) as (Hn & Hk1 & Hg1a & Hg1b & _ & _);
    [lra|].
  destruct (percentile_ranks l q2 Hne) as (_ & Hk2 & Hg2a & Hg2b & _ & _);
    [lra|].
  unfold percentile.
  pose proof (sort_Sorted l) as Hs.
  set (s := sort l) in *. set (n := Z.of_nat (length s)) in *.
  assert (Hv : (inject_Z n - 1) * (q1 / 100) <= (inject_Z n - 1) * (q2 / 100)).
  { assert (Hm : 0 <= inject_Z n - 1).
    { assert (inject_Z 1 <= inject_Z n) by (rewrite <- Zle_Qle; lia).
      change (inject_Z 1) with 1 in *. lra. }
    assert (Hd : 0 <= q2 / 100 - q1 / 100).
    { setoid_replace (q2 / 100 - q1 / 100) with ((q2 - q1) / 100) by field.
      apply Qle_shift_div_l; [reflexivity|]. lra. }
    assert (0 <= (inject_Z n - 1) * (q2 / 100 - q1 / 100))
      by (apply Qmult_le_0_compat; assumption).
    set (r1 := q1 / 100) in *. set (r2 := q2 / 100) in *. lra. }
  set (v1 := (inject_Z n - 1) * (q1 / 100)) in *.
  set (v2 := (inject_Z n - 1) * (q2 / 100)) in *.
  pose proof (Qfloor_resp_le _ _ Hv) as Hk.
  set (k1 := Qfloor v1) in *. set (k2 := Qfloor v2) in *.
  assert (A1 : nth (Z.to_nat k1) s 0
               <= nth (Z.to_nat (Z.min (k1 + 1) (n - 1))) s 0).
  { apply sorted_nth_le; [exact Hs|]. unfold n in *. lia. }
  assert (A2 : nth (Z.to_nat k2) s 0
               <= nth (Z.to_nat (Z.min (k2 + 1) (n - 1))) s 0).
  { apply sorted_nth_le; [exact Hs|]. unfold n in *. lia. }
  destruct (Z.eq_dec k1 k2) as [E|E].
  - rewrite <- E in *.
    set (a := nth (Z.to_nat k1) s 0) in *.
    set (b := nth (Z.to_nat (Z.min (k1 + 1) (n - 1))) s 0) in *.
    assert (0 <= (b - a) * (v2 - v1)) by (apply Qmult_le_0_compat; lra).
    lra.
  - assert (B : nth (Z.to_nat (Z.min (k1 + 1) (n - 1))) s 0
                <= nth (Z.to_nat k2) s 0).
    { apply sorted_nth_le; [exact Hs|]. unfold n in *. lia. }
    set (a1 := nth (Z.to_nat k1) s 0) in *.
    set (b1 := nth (Z.to_nat (Z.min (k1 + 1) (n - 1))) s 0) in *.
    set (a2 := nth (Z.to_nat k2) s 0) in *.
    set (b2 := nth (Z.to_nat (Z.min (k2 + 1) (n - 1))) s 0) in *.
    set (g1 := v1 - inject_Z k1) in *. set (g2 := v2 - inject_Z k2) in *.
    assert (0 <= (b1 - a1) * (1 - g1)) by (apply Qmult_le_0_compat; lra).
    assert (0 <= (b2 - a2) * g2) by (apply Qmult_le_0_compat; lra).
    lra.
Qed.

Lemma percentile_monotone_witness :
  percentile [100; 0; 50] 2 <= percentile [100; 0; 50] 98.
Proof.
  apply (percentile_monotone [100; 0; 50] 2 98); discriminate.
Defined.

(** ** Stretching and masking *)

Lemma filter_valid_nonempty (band : Band) :
  (exists x, In x band /\ tif2png.valid x = true) ->
  filter tif2png.valid band <> [].
Proof.
  intros (x & Hin & Hv) E.
  assert (H : In x (filter tif2png.valid band))
    by (apply filter_In; split; assumption).
  rewrite E in H. exact H.
Qed.

(** The stretch of a sample between [p2 <= p98] is either a number in
    [0, 255], which the cast to 8 bits keeps, or (exactly when
    [p2 == p98]) not a number. *)
Lemma stretch_range (p2 p98 x : Q) :
  p2 <= p98 ->
  match stretch p2 p98 x with
  | Some v =>
      p2 < p98 /\ 0 <= v <= 255 /\
      to_uint8 (Some v) = Some (Qfloor v) /\ (0 <= Qfloor v <= 255)%Z
  | None => p2 == p98
  end.
Proof.
  intro Hle. destruct (Qlt_le_dec p2 p98) as [Hlt|Hge].
  - destruct (stretch_bounds p2 p98 x Hlt) as (v & -> & Hb).
    split; [exact Hlt|]. split; [exact Hb|].
    apply to_uint8_in_range. exact Hb.
  - rewrite stretch_degenerate by lra. lra.
Qed.

(** In tif2png.py the stretch never leaves the range of a byte: for a band
    with a valid sample, [p2 <= p98], and every output sample is either a
    number in [0, 255] that the cast to 8 bits keeps, or not a number, which
    happens only when [p2 == p98]. *)
Theorem scale_band_never_out_of_range (band : Band) :
  let p2 := percentile (filter tif2png.valid band) 2 in
  let p98 := percentile (filter tif2png.valid band) 98 in
  (exists x, In x band /\ tif2png.valid x = true) ->
  p2 <= p98 /\
  exists out,
    tif2png.scale_band band = Some out /\
    Forall (fun s =>
              match s with
              | Some v =>
                  0 <= v <= 255 /\
                  to_uint8 (Some v) = Some (Qfloor v) /\
                  (0 <= Qfloor v <= 255)%Z
              | None => p2 == p98
              end) out.
Proof.
  intros p2 p98 Hvalid.
  assert (Hle : p2 <= p98).
  { apply percentile_monotone; try lra.
    apply filter_valid_nonempty. exact Hvalid. }
  split; [exact Hle|].
  rewrite scale_band_samples.
  assert (E : existsb tif2png.valid band = true)
    by (apply existsb_exists; exact Hvalid).
  rewrite E. fold p2 p98. eexists. split; [reflexivity|].
  apply Forall_forall. intros s Hs. apply in_map_iff in Hs.
  destruct Hs as (x & <- & _).
  destruct (tif2png.valid x); cbn [tif2png.blacken].
  - pose proof (stretch_range p2 p98 x Hle) as H.
    destruct (stretch p2 p98 x); [|exact H]. tauto.
  - split; [split; discriminate|]. split; [reflexivity|].
    change (Qfloor 0) with 0%Z. lia.
Qed.

Lemma scale_band_never_out_of_range_witness :
  let band := Examples.constant_band in
  let p2 := percentile (filter tif2png.valid band) 2 in
  let p98 := percentile (filter tif2png.valid band) 98 in
  p2 <= p98 /\
  exists out,
    tif2png.scale_band band = Some out /\
    Forall (fun s =>
              match s with
              | Some v =>
                  0 <= v <= 255 /\
                  to_uint8 (Some v) = Some (Qfloor v) /\
                  (0 <= Qfloor v <= 255)%Z
              | None => p2 == p98
              end) out.
Proof.
  apply (scale_band_never_out_of_range Examples.constant_band).
  exists 5. split; [simpl; auto|reflexivity].
Defined.

(** The stretch keeps the order of the samples and saturates: with
    [p2 < p98], a sample at or below [p2] becomes 0, a sample at or above
    [p98] becomes 255, and a larger sample never becomes a smaller value. *)
Theorem stretch_monotone (p2 p98 x y : Q) :
  p2 < p98 -> x <= y ->
  exists u v,
    stretch p2 p98 x = Some u /\ stretch p2 p98 y = Some v /\ u <= v /\
    (x <= p2 -> u == 0) /\ (p98 <= y -> v == 255).
Proof.
  intros Hlt Hxy. unfold stretch, npdiv.
  rewrite Qeq_bool_false by lra. simpl.
  do 2 eexists. split; [reflexivity|]. split; [reflexivity|].
  assert (Hd : 0 < p98 - p2) by lra.
  assert (Cx : x <= p2 -> clip p2 p98 x == p2).
  { intro H. unfold clip.
    destruct (Q.max_spec x p2) as [[? E1]|[? E1]];
      destruct (Q.min_spec (Qmax x p2) p98) as [[? E2]|[? E2]];
      rewrite E2; lra. }
  assert (Cy : p98 <= y -> clip p2 p98 y == p98).
  { intro H. unfold clip.
    destruct (Q.max_spec y p2) as [[? E1]|[? E1]];
      destruct (Q.min_spec (Qmax y p2) p98) as [[? E2]|[? E2]];
      rewrite E2; lra. }
  assert (Cm : clip p2 p98 x <= clip p2 p98 y).
  { unfold clip.
    destruct (Q.max_spec x p2) as [[? E1]|[? E1]];
      destruct (Q.max_spec y p2) as [[? E3]|[? E3]];
      destruct (Q.min_spec (Qmax x p2) p98) as [[? E2]|[? E2]];
      destruct (Q.min_spec (Qmax y p2) p98) as [[? E4]|[? E4]];
      rewrite E2, E4; lra. }
  split; [|split].
  - assert (L : (clip p2 p98 x - p2) / (p98 - p2)
                <= (clip p2 p98 y - p2) / (p98 - p2)).
    { apply Qle_shift_div_l; [exact Hd|]. unfold Qdiv.
      rewrite <- Qmult_assoc, (Qmult_comm (/ (p98 - p2))), Qmult_inv_r by lra.
      lra. }
    lra.
  - intro H. rewrite (Cx H). field. lra.
  - intro H. rewrite (Cy H). field. lra.
Qed.

Lemma stretch_monotone_witness :
  exists u v,
    stretch 2 98 0 = Some u /\ stretch 2 98 100 = Some v /\ u <= v /\
    (0 <= 2 -> u == 0) /\ (98 <= 100 -> v == 255).
Proof.
  apply (stretch_monotone 2 98 0 100); [reflexivity|discriminate].
Defined.

(** The values stored at the invalid positions do not matter to tif2png.py:
    two bands that are invalid at the same positions and carry the same
    samples at the valid ones are scaled to the same output. *)
Theorem scale_band_ignores_nodata_values (band band' : Band) :
  Forall2 (fun x y =>
             if tif2png.valid x then x = y else tif2png.valid y = false)
          band band' ->
  tif2png.scale_band band = tif2png.scale_band band'.
Proof.
  intro H.
  assert (F : filter tif2png.valid band = filter tif2png.valid band').
  { induction H as [|x y l l' Hxy Hl IH]; simpl; [reflexivity|].
    destruct (tif2png.valid x) eqn:Vx.
    - subst y. rewrite Vx. f_equal. exact IH.
    - rewrite Hxy. exact IH. }
  assert (X : existsb tif2png.valid band = existsb tif2png.valid band').
  { induction H as [|x y l l' Hxy Hl IH]; simpl; [reflexivity|].
    destruct (tif2png.valid x) eqn:Vx.
    - subst y. rewrite Vx. reflexivity.
    - rewrite Hxy. simpl. apply IH.
      simpl in F. rewrite Vx, Hxy in F. exact F. }
  rewrite !scale_band_samples, <- X, <- F.
  destruct (existsb tif2png.valid band); [|reflexivity]. f_equal.
  clear F X.
  generalize (percentile (filter tif2png.valid band) 2) as p2.
  generalize (percentile (filter tif2png.valid band) 98) as p98.
  intros p98 p2.
  induction H as [|x y l l' Hxy Hl IH]; simpl; [reflexivity|].
  f_equal; [|exact IH].
  destruct (tif2png.valid x) eqn:Vx.
  - subst y. rewrite Vx. reflexivity.
  - rewrite Hxy. reflexivity.
Qed.

Lemma scale_band_ignores_nodata_values_witness :
  tif2png.scale_band Examples.band_with_nodata
  = tif2png.scale_band MoreExamples.band_with_other_fill.
Proof.
  apply (scale_band_ignores_nodata_values Examples.band_with_nodata
           MoreExamples.band_with_other_fill).
  repeat constructor.
Defined.

Lemma filter_all_valid (band : Band) :
  Forall (fun x => tif2png.valid x = true) band ->
  filter tif2png.valid band = band.
Proof.
  intro H. induction H as [|x l Hx Hl IH]; simpl; [reflexivity|].
  rewrite Hx, IH. reflexivity.
Qed.

(** On a band without invalid samples the two converters agree: the mask of
    tif2png.py changes nothing and its output is the output of the
    converter of tif_shp_to_yolo_png_converter.py. *)
Theorem scale_band_agree_when_all_valid (band : Band) :
  band <> [] ->
  Forall (fun x => tif2png.valid x = true) band ->
  tif2png.scale_band band
  = Some (tif_shp_to_yolo_png_converter.scale_band band).
Proof.
  intros Hne Hall. rewrite scale_band_samples.
  rewrite (filter_all_valid band Hall).
  assert (E : existsb tif2png.valid band = true).
  { destruct band as [|x l]; [contradiction|].
    inversion Hall as [|? ? Hx _]; subst. simpl. rewrite Hx. reflexivity. }
  rewrite E. f_equal. unfold tif_shp_to_yolo_png_converter.scale_band.
  apply map_ext_in. intros x Hx. rewrite Forall_forall in Hall.
  rewrite (Hall x Hx). reflexivity.
Qed.

Lemma scale_band_agree_when_all_valid_witness :
  tif2png.scale_band MoreExamples.valid_band
  = Some (tif_shp_to_yolo_png_converter.scale_band MoreExamples.valid_band).
Proof.
  apply (scale_band_agree_when_all_valid MoreExamples.valid_band).
  - discriminate.
  - repeat constructor.
Defined.

(** The converter of tif_shp_to_yolo_png_converter.py has the same range
    and the same gap as tif2png.py: on a non-empty band [p2 <= p98], and
    every output sample is a number in [0, 255] kept by the cast, or not a
    number when [p2 == p98]; on a band of equal samples every output
    sample is not a number. *)
Theorem converter_scale_band_range (band : Band) :
  let p2 := percentile band 2 in
  let p98 := percentile band 98 in
  band <> [] ->
  p2 <= p98 /\
  Forall (fun s =>
            match s with
            | Some v =>
                0 <= v <= 255 /\
                to_uint8 (Some v) = Some (Qfloor v) /\
                (0 <= Qfloor v <= 255)%Z
            | None => p2 == p98
            end)
         (tif_shp_to_yolo_png_converter.scale_band band) /\
  (forall c, Forall (fun x => x == c) band ->
     tif_shp_to_yolo_png_converter.scale_band band
     = map (fun _ => None) band).
Proof.
  intros p2 p98 Hne.
  assert (Hle : p2 <= p98) by (apply percentile_monotone; try lra; exact Hne).
  split; [exact Hle|]. split.
  - unfold tif_shp_to_yolo_png_converter.scale_band. fold p2 p98.
    apply Forall_forall. intros s Hs. apply in_map_iff in Hs.
    destruct Hs as (x & <- & _).
    pose proof (stretch_range p2 p98 x Hle) as H.
    destruct (stretch p2 p98 x); [|exact H]. tauto.
  - intros c Hc. unfold tif_shp_to_yolo_png_converter.scale_band.
    apply map_ext. intro x. apply stretch_degenerate.
    rewrite !(percentile_constant band c) by (try assumption; lra).
    reflexivity.
Qed.

Lemma converter_scale_band_range_witness :
  let band := MoreExamples.valid_band in
  let p2 := percentile band 2 in
  let p98 := percentile band 98 in
  p2 <= p98 /\
  Forall (fun s =>
            match s with
            | Some v =>
                0 <= v <= 255 /\
                to_uint8 (Some v) = Some (Qfloor v) /\
                (0 <= Qfloor v <= 255)%Z
            | None => p2 == p98
            end)
         (tif_shp_to_yolo_png_converter.scale_band band) /\
  (forall c, Forall (fun x => x == c) band ->
     tif_shp_to_yolo_png_converter.scale_band band
     = map (fun _ => None) band).
Proof.
  apply (converter_scale_band_range MoreExamples.valid_band). discriminate.
Defined.




(** ** Tiling *)

Lemma in_range (z n : Z) :
  In z (tif_to_png_squares.range n) <-> (0 <= z < n)%Z.
Proof.
  unfold tif_to_png_squares.range. rewrite in_map_iff. split.
  - intros (k & <- & Hk). apply in_seq in Hk. lia.
  - intro H. exists (Z.to_nat z). split; [lia|]. apply in_seq. lia.
Qed.

Lemma range_length (n : Z) :
  length (tif_to_png_squares.range n) = Z.to_nat n.
Proof.
  unfold tif_to_png_squares.range. rewrite length_map, length_seq.
  reflexivity.
Qed.

Lemma range_NoDup (n : Z) : NoDup (tif_to_png_squares.range n).
Proof.
  unfold tif_to_png_squares.range.
  generalize (seq_NoDup (Z.to_nat n) 0). generalize (seq 0 (Z.to_nat n)).
  intros l H. induction H as [|k l Hk Hl IH]; simpl; constructor.
  - intro Hin. apply in_map_iff in Hin. destruct Hin as (j & Hj & Hin).
    apply Nat2Z.inj in Hj. subst j. contradiction.
  - exact IH.
Qed.

(** The squares saved for a non-zero size are those of the grid of
    [height // size] rows and [width // size] columns. *)
Lemma split_squares (w h s : Z) :
  s <> 0%Z ->
  exists squares,
    tif_to_png_squares.split_png_to_squares w h s = Ok squares /\
    length squares = (Z.to_nat (h / s) * Z.to_nat (w / s))%nat /\
    forall sq,
      In sq squares <->
      exists x y,
        (0 <= x < w / s)%Z /\ (0 <= y < h / s)%Z /\
        sq = tif_to_png_squares.mkSquare y x
               ((x * s)%Z, (y * s)%Z, ((x + 1) * s)%Z, ((y + 1) * s)%Z).
Proof.
  intro Hs. unfold tif_to_png_squares.split_png_to_squares,
    tif_to_png_squares.floordiv.
  destruct (Z.eqb_spec s 0) as [E|_]; [contradiction|]. simpl.
  eexists. split; [reflexivity|]. split.
  - rewrite <- (range_length (h / s)).
    induction (tif_to_png_squares.range (h / s)) as [|y r IH]; simpl;
      [reflexivity|].
    rewrite length_app, length_map, range_length, IH. reflexivity.
  - intro sq. rewrite in_flat_map. split.
    + intros (y & Hy & Hin). apply in_map_iff in Hin.
      destruct Hin as (x & <- & Hx).
      apply in_range in Hy. apply in_range in Hx. eauto.
    + intros (x & y & Hx & Hy & ->). exists y.
      split; [apply in_range; exact Hy|].
      apply in_map_iff. exists x.
      split; [reflexivity|apply in_range; exact Hx].
Qed.

(** For a positive size, the squares are as many as the grid of
    [height // size] rows and [width // size] columns has cells; each is
    a [size] x [size] box inside the image, placed at its indices times
    the size. *)
Theorem split_squares_inside (w h s : Z) :
  (0 < s)%Z ->
  exists squares,
    tif_to_png_squares.split_png_to_squares w h s = Ok squares /\
    length squares = (Z.to_nat (h / s) * Z.to_nat (w / s))%nat /\
    Forall (fun sq =>
              let '(l, u, r, d) := tif_to_png_squares.sq_box sq in
              (r - l = s /\ d - u = s /\
               0 <= l /\ r <= w /\ 0 <= u /\ d <= h /\
               l = tif_to_png_squares.sq_x sq * s /\
               u = tif_to_png_squares.sq_y sq * s)%Z)
           squares.
Proof.
  intro Hs.
  destruct (split_squares w h s) as (squares & Hrun & Hlen & Hin); [lia|].
  exists squares. split; [exact Hrun|]. split; [exact Hlen|].
  apply Forall_forall. intros sq Hsq. apply Hin in Hsq.
  destruct Hsq as (x & y & Hx & Hy & ->). simpl.
  assert (Hw : (s * (w / s) <= w)%Z) by (apply Z.mul_div_le; lia).
  assert (Hh : (s * (h / s) <= h)%Z) by (apply Z.mul_div_le; lia).
  repeat split; nia.
Qed.

Lemma split_squares_inside_witness :
  exists squares,
    tif_to_png_squares.split_png_to_squares 450 300 200 = Ok squares /\
    length squares = (Z.to_nat (300 / 200) * Z.to_nat (450 / 200))%nat /\
    Forall (fun sq =>
              let '(l, u, r, d) := tif_to_png_squares.sq_box sq in
              (r - l = 200 /\ d - u = 200 /\
               0 <= l /\ r <= 450 /\ 0 <= u /\ d <= 300 /\
               l = tif_to_png_squares.sq_x sq * 200 /\
               u = tif_to_png_squares.sq_y sq * 200)%Z)
           squares.
Proof.
  apply (split_squares_inside 450 300 200). lia.
Defined.

(** For a positive size no two squares share a file name (their pairs of
    indices are all different) and no two squares overlap. *)
Theorem split_squares_disjoint (w h s : Z) (squares : list
    tif_to_png_squares.Square) :
  (0 < s)%Z ->
  tif_to_png_squares.split_png_to_squares w h s = Ok squares ->
  NoDup (map (fun sq => (tif_to_png_squares.sq_y sq,
                         tif_to_png_squares.sq_x sq)) squares) /\
  forall sq1 sq2,
    In sq1 squares -> In sq2 squares -> sq1 <> sq2 ->
    let '(l1, u1, r1, d1) := tif_to_png_squares.sq_box sq1 in
    let '(l2, u2, r2, d2) := tif_to_png_squares.sq_box sq2 in
    (r1 <= l2 \/ r2 <= l1 \/ d1 <= u2 \/ d2 <= u1)%Z.
Proof.
  intros Hs Hrun. split.
  - revert Hrun. unfold tif_to_png_squares.split_png_to_squares,
      tif_to_png_squares.floordiv.
    destruct (Z.eqb_spec s 0) as [E|_]; [lia|]. simpl.
    intro H. injection H as <-.
    generalize (range_NoDup (h / s)).
    generalize (tif_to_png_squares.range (h / s)) as rows.
    intros rows Hrows. induction Hrows as [|y rows Hy Hrows IH]; simpl;
      [constructor|].
    rewrite map_app. apply NoDup_app; [| exact IH |].
    + rewrite map_map. simpl.
      generalize (range_NoDup (w / s)).
      generalize (tif_to_png_squares.range (w / s)) as cols.
      intros cols Hcols. induction Hcols as [|x cols Hx Hcols IHc]; simpl;
        constructor; [|exact IHc].
      intro Hin. apply in_map_iff in Hin. destruct Hin as (x' & E & Hin).
      injection E as ->. contradiction.
    + intros [y' x'] H1 H2. apply in_map_iff in H1.
      destruct H1 as (sq & E1 & H1). apply in_map_iff in H1.
      destruct H1 as (x1 & <- & _). simpl in E1. injection E1 as <- <-.
      apply in_map_iff in H2. destruct H2 as (sq & E2 & H2).
      apply in_flat_map in H2. destruct H2 as (y2 & Hy2 & H2).
      apply in_map_iff in H2. destruct H2 as (x2 & <- & _).
      simpl in E2. injection E2 as -> ->. contradiction.
  - intros sq1 sq2 H1 H2 Hne.
    destruct (split_squares w h s) as (squares' & Hrun' & _ & Hin); [lia|].
    rewrite Hrun in Hrun'. injection Hrun' as <-.
    apply Hin in H1. apply Hin in H2.
    destruct H1 as (x1 & y1 & _ & _ & ->).
    destruct H2 as (x2 & y2 & _ & _ & ->). simpl.
    destruct (Z.eq_dec x1 x2) as [Ex|Ex];
      [destruct (Z.eq_dec y1 y2) as [Ey|Ey]|].
    + subst. contradiction.
    + assert (y1 + 1 <= y2 \/ y2 + 1 <= y1)%Z as [L|L] by lia; nia.
    + assert (x1 + 1 <= x2 \/ x2 + 1 <= x1)%Z as [L|L] by lia; nia.
Qed.

Lemma split_squares_disjoint_witness :
  exists squares,
    tif_to_png_squares.split_png_to_squares 450 300 200 = Ok squares /\
    NoDup (map (fun sq => (tif_to_png_squares.sq_y sq,
                           tif_to_png_squares.sq_x sq)) squares) /\
    forall sq1 sq2,
      In sq1 squares -> In sq2 squares -> sq1 <> sq2 ->
      let '(l1, u1, r1, d1) := tif_to_png_squares.sq_box sq1 in
      let '(l2, u2, r2, d2) := tif_to_png_squares.sq_box sq2 in
      (r1 <= l2 \/ r2 <= l1 \/ d1 <= u2 \/ d2 <= u1)%Z.
Proof.
  eexists. split; [reflexivity|].
  apply (split_squares_disjoint 450 300 200); [lia|reflexivity].
Defined.

(** For a positive size, every pixel of the part of the image made of whole
    squares lies in a saved square; what is left out, to the right and at
    the bottom, is narrower than one square. *)
Theorem split_squares_cover (w h s : Z) :
  (0 < s)%Z -> (0 <= w)%Z -> (0 <= h)%Z ->
  exists squares,
    tif_to_png_squares.split_png_to_squares w h s = Ok squares /\
    (0 <= w - (w / s) * s < s)%Z /\ (0 <= h - (h / s) * s < s)%Z /\
    forall px py,
      (0 <= px < (w / s) * s)%Z -> (0 <= py < (h / s) * s)%Z ->
      exists sq,
        In sq squares /\
        let '(l, u, r, d) := tif_to_png_squares.sq_box sq in
        (l <= px < r /\ u <= py < d)%Z.
Proof.
  intros Hs Hw Hh.
  destruct (split_squares w h s) as (squares & Hrun & _ & Hin); [lia|].
  exists squares. split; [exact Hrun|].
  pose proof (Z.mod_pos_bound w s Hs) as Mw.
  pose proof (Z.mod_pos_bound h s Hs) as Mh.
  pose proof (Z.div_mod w s ltac:(lia)) as Dw.
  pose proof (Z.div_mod h s ltac:(lia)) as Dh.
  split; [lia|]. split; [lia|].
  intros px py Hx Hy.
  exists (tif_to_png_squares.mkSquare (py / s) (px / s)
            ((px / s * s)%Z, (py / s * s)%Z, ((px / s + 1) * s)%Z,
             ((py / s + 1) * s)%Z)).
  pose proof (Z.mod_pos_bound px s Hs) as Mx.
  pose proof (Z.mod_pos_bound py s Hs) as My.
  pose proof (Z.div_mod px s ltac:(lia)) as Dx.
  pose proof (Z.div_mod py s ltac:(lia)) as Dy.
  split.
  - apply Hin. exists (px / s)%Z, (py / s)%Z.
    split; [|split; [|reflexivity]].
    + split; [apply Z.div_pos; lia|].
      apply Z.div_lt_upper_bound; lia.
    + split; [apply Z.div_pos; lia|].
      apply Z.div_lt_upper_bound; lia.
  - simpl. lia.
Qed.

Lemma split_squares_cover_witness :
  exists squares,
    tif_to_png_squares.split_png_to_squares 450 300 200 = Ok squares /\
    (0 <= 450 - (450 / 200) * 200 < 200)%Z /\
    (0 <= 300 - (300 / 200) * 200 < 200)%Z /\
    forall px py,
      (0 <= px < (450 / 200) * 200)%Z -> (0 <= py < (300 / 200) * 200)%Z ->
      exists sq,
        In sq squares /\
        let '(l, u, r, d) := tif_to_png_squares.sq_box sq in
        (l <= px < r /\ u <= py < d)%Z.
Proof.
  apply (split_squares_cover 450 300 200); lia.
Defined.

(** The sizes that save nothing: a negative size, and a size larger than
    the image's width or height, end normally without a single square; a
    zero size raises [ZeroDivisionError]. *)
Theorem split_squares_degenerate (w h s : Z) :
  (0 <= w)%Z -> (0 <= h)%Z -> (s < 0 \/ w < s \/ h < s)%Z ->
  tif_to_png_squares.split_png_to_squares w h s = Ok [] /\
  tif_to_png_squares.split_png_to_squares w h 0 = Raise ZeroDivisionError.
Proof.
  intros Hw Hh Hc. split; [|reflexivity].
  assert (Hs : s <> 0%Z) by lia.
  destruct (split_squares w h s Hs) as (squares & Hrun & Hlen & _).
  rewrite Hrun. f_equal.
  assert (Z : (w / s <= 0 \/ h / s <= 0)%Z).
  { destruct (Z.lt_trichotomy s 0) as [N|[E|P]]; [|lia|].
    - left. pose proof (Z.mod_neg_bound w s N).
      pose proof (Z.div_mod w s Hs). nia.
    - destruct Hc as [Hc|[Hc|Hc]]; [lia| |].
      + left. rewrite Z.div_small; lia.
      + right. rewrite Z.div_small; lia. }
  destruct squares as [|sq r]; [reflexivity|]. simpl in Hlen.
  destruct Z as [Z|Z].
  - replace (Z.to_nat (w / s)) with 0%nat in Hlen by lia. lia.
  - replace (Z.to_nat (h / s)) with 0%nat in Hlen by lia. lia.
Qed.

Lemma split_squares_degenerate_witness :
  tif_to_png_squares.split_png_to_squares 450 300 (-200) = Ok [] /\
  tif_to_png_squares.split_png_to_squares 450 300 0 = Raise ZeroDivisionError.
Proof.
  apply (split_squares_degenerate 450 300 (-200)); lia.
Defined.

(** ** The clipper: the loop over the squares *)

Lemma enumerate_app {A : Type} (k : nat) (l1 l2 : list A) :
  combine (seq k (length (l1 ++ l2))) (l1 ++ l2)
  = combine (seq k (length l1)) l1
    ++ combine (seq (k + length l1) (length l2)) l2.
Proof.
  revert k. induction l1 as [|x l1 IH]; intro k; simpl.
  - rewrite Nat.add_0_r. reflexivity.
  - rewrite IH.
    replace (S k + length l1)%nat with (k + S (length l1))%nat by lia.
    reflexivity.
Qed.

Section MainLoop.

Variable mask : Dataset -> list GeoJSON -> bool -> result (Image * Affine.t).
Variable to_crs : String.string -> list GeoJSON -> list GeoJSON.
Variable intersects : GeoJSON -> GeoJSON -> bool.
Variable to_file : list GeoJSON -> result unit.

Lemma process_squares_prefix (src : Dataset) (bbox_gdf : list GeoJSON)
    (before : list GeoJSON) :
  Forall (raster_clipper_main.square_ok mask intersects to_file src bbox_gdf)
         before ->
  forall k rest written,
    raster_clipper_main.process_squares mask intersects to_file src bbox_gdf
      (combine (seq k (length before)) before ++ rest) written
    = raster_clipper_main.process_squares mask intersects to_file src bbox_gdf
        rest
        (written ++
         flat_map (raster_clipper_main.square_files mask intersects src
                     bbox_gdf)
                  (combine (seq k (length before)) before)).
Proof.
  intro H. induction H as [|sq before [[ds Hclip] Hfile] Hrest IH];
    intros k rest written; simpl.
  - rewrite app_nil_r. reflexivity.
  - unfold raster_clipper_main.square_files at 1. simpl.
    rewrite Hclip, Hfile. rewrite IH. f_equal.
    rewrite <- !app_assoc. reflexivity.
Qed.

End MainLoop.

(** [main] stops at the first square whose clip raises: the exception
    leaves [main], the two files of every earlier square have been written,
    in order, and nothing is written for that square or for any later
    one. *)
Theorem main_stops_at_first_failure
    (mask : Dataset -> list GeoJSON -> bool -> result (Image * Affine.t))
    (to_crs : String.string -> list GeoJSON -> list GeoJSON)
    (intersects : GeoJSON -> GeoJSON -> bool)
    (to_file : list GeoJSON -> result unit)
    (src : Dataset) (squares_gdf bbox_gdf before after : list GeoJSON)
    (square : GeoJSON) (e : exn) :
  let bboxes := to_crs (crs (meta src)) bbox_gdf in
  to_crs (crs (meta src)) squares_gdf = before ++ square :: after ->
  Forall (raster_clipper_main.square_ok mask intersects to_file src bboxes)
         before ->
  clip_raster_with_polygon mask src square = Raise e ->
  raster_clipper_main.main mask to_crs intersects to_file src squares_gdf
    bbox_gdf
  = (flat_map (raster_clipper_main.square_files mask intersects src bboxes)
              (combine (seq 0 (length before)) before),
     Raise e).
Proof.
  intros bboxes Hsq Hbefore Hclip.
  unfold raster_clipper_main.main,
    raster_clipper_main.reproject_shapefile_to_match_raster.
  fold bboxes. rewrite Hsq, enumerate_app.
  rewrite (process_squares_prefix mask intersects to_file src bboxes before
             Hbefore).
  simpl. rewrite Hclip. reflexivity.
Qed.

(** When every square is processed without an exception, [main] ends
    normally and has written, for each square in order, its clipped raster
    and then the bounding boxes that intersect it. *)
Theorem main_writes_every_square
    (mask : Dataset -> list GeoJSON -> bool -> result (Image * Affine.t))
    (to_crs : String.string -> list GeoJSON -> list GeoJSON)
    (intersects : GeoJSON -> GeoJSON -> bool)
    (to_file : list GeoJSON -> result unit)
    (src : Dataset) (squares_gdf bbox_gdf : list GeoJSON) :
  let bboxes := to_crs (crs (meta src)) bbox_gdf in
  let squares := to_crs (crs (meta src)) squares_gdf in
  Forall (raster_clipper_main.square_ok mask intersects to_file src bboxes)
         squares ->
  raster_clipper_main.main mask to_crs intersects to_file src squares_gdf
    bbox_gdf
  = (flat_map (raster_clipper_main.square_files mask intersects src bboxes)
              (combine (seq 0 (length squares)) squares),
     Ok tt) /\
  map raster_clipper_main.written_index
      (fst (raster_clipper_main.main mask to_crs intersects to_file src
              squares_gdf bbox_gdf))
  = flat_map (fun i => [i; i]) (seq 0 (length squares)).
Proof.
  intros bboxes squares Hall.
  assert (Hmain :
    raster_clipper_main.main mask to_crs intersects to_file src squares_gdf
      bbox_gdf
    = (flat_map (raster_clipper_main.square_files mask intersects src bboxes)
                (combine (seq 0 (length squares)) squares),
       Ok tt)).
  { unfold raster_clipper_main.main,
      raster_clipper_main.reproject_shapefile_to_match_raster.
    fold bboxes squares.
    rewrite <- (app_nil_r (combine (seq 0 (length squares)) squares)) at 1.
    rewrite (process_squares_prefix mask intersects to_file src bboxes
               squares Hall).
    reflexivity. }
  split; [exact Hmain|]. rewrite Hmain. simpl.
  generalize 0%nat as k. clear Hmain.
  induction Hall as [|sq rest [[ds Hclip] _] Hrest IH]; intro k; simpl;
    [reflexivity|].
  unfold raster_clipper_main.square_files at 1. simpl. rewrite Hclip.
  simpl. f_equal. f_equal. apply IH.
Qed.

Lemma main_stops_at_first_failure_witness :
  let src := Examples.small_raster in
  let inside := mask_model.extent_polygon src in
  raster_clipper_main.main mask_model.mask MoreExamples.same_crs
    MoreExamples.bounds_intersect MoreExamples.write_ok src
    [inside; Examples.square 0 0 10 10; inside]
    [Examples.square 101 195 105 199; Examples.square 0 0 1 1]
  = (flat_map (raster_clipper_main.square_files mask_model.mask
                 MoreExamples.bounds_intersect src
                 [Examples.square 101 195 105 199; Examples.square 0 0 1 1])
              (combine (seq 0 (length [inside])) [inside]),
     Raise EmptyIntersectionError).
Proof.
  apply (main_stops_at_first_failure mask_model.mask MoreExamples.same_crs
           MoreExamples.bounds_intersect MoreExamples.write_ok
           Examples.small_raster
           [mask_model.extent_polygon Examples.small_raster;
            Examples.square 0 0 10 10;
            mask_model.extent_polygon Examples.small_raster]
           [Examples.square 101 195 105 199; Examples.square 0 0 1 1]
           [mask_model.extent_polygon Examples.small_raster]
           [mask_model.extent_polygon Examples.small_raster]
           (Examples.square 0 0 10 10) EmptyIntersectionError).
  - reflexivity.
  - constructor; [|constructor]. split; [|reflexivity].
    eexists. reflexivity.
  - reflexivity.
Defined.

Lemma main_writes_every_square_witness :
  let src := Examples.small_raster in
  let inside := mask_model.extent_polygon src in
  let bboxes := [Examples.square 101 195 105 199; Examples.square 0 0 1 1] in
  raster_clipper_main.main mask_model.mask MoreExamples.same_crs
    MoreExamples.bounds_intersect MoreExamples.write_ok src
    [inside; Examples.square 102 196 106 200] bboxes
  = (flat_map (raster_clipper_main.square_files mask_model.mask
                 MoreExamples.bounds_intersect src bboxes)
              (combine (seq 0 2) [inside; Examples.square 102 196 106 200]),
     Ok tt) /\
  map raster_clipper_main.written_index
      (fst (raster_clipper_main.main mask_model.mask MoreExamples.same_crs
              MoreExamples.bounds_intersect MoreExamples.write_ok src
              [inside; Examples.square 102 196 106 200] bboxes))
  = flat_map (fun i => [i; i]) (seq 0 2).
Proof.
  apply (main_writes_every_square mask_model.mask MoreExamples.same_crs
           MoreExamples.bounds_intersect MoreExamples.write_ok
           Examples.small_raster
           [mask_model.extent_polygon Examples.small_raster;
            Examples.square 102 196 106 200]
           [Examples.square 101 195 105 199; Examples.square 0 0 1 1]).
  constructor; [|constructor; [|constructor]];
    (split; [eexists; reflexivity|reflexivity]).
Defined.

(** ** Grouped bounding boxes *)

Lemma insert_key_In (k j : Z) (keys : list Z) :
  In j (group_bbox_creator.insert_key k keys) <-> j = k \/ In j keys.
Proof.
  induction keys as [|i rest IH]; simpl.
  - intuition.
  - destruct (Z.ltb_spec k i); [simpl; intuition|].
    destruct (Z.eqb_spec k i); simpl; [subst; intuition|].
    rewrite IH. intuition.
Qed.

Lemma insert_key_sorted (k : Z) (keys : list Z) :
  StronglySorted Z.lt keys ->
  StronglySorted Z.lt (group_bbox_creator.insert_key k keys).
Proof.
  intro H. induction H as [|i rest Hrest IH Hi]; simpl.
  - constructor; constructor.
  - destruct (Z.ltb_spec k i).
    + constructor; [constructor; assumption|].
      constructor; [assumption|].
      rewrite Forall_forall in *. intros j Hj. specialize (Hi j Hj). lia.
    + destruct (Z.eqb_spec k i); [constructor; assumption|].
      constructor; [exact IH|].
      rewrite Forall_forall in *. intros j Hj.
      apply insert_key_In in Hj. destruct Hj as [->|Hj]; [lia|auto].
Qed.

Lemma group_keys_In (gdf : list group_bbox_creator.Row) (k : Z) :
  In k (group_bbox_creator.group_keys gdf)
  <-> In (Some k) (map group_bbox_creator.group gdf).
Proof.
  unfold group_bbox_creator.group_keys, group_bbox_creator.keys_of.
  induction gdf as [|r rest IH]; simpl; [reflexivity|].
  destruct (group_bbox_creator.group r) as [j|]; simpl.
  - rewrite insert_key_In, IH. split; intros [H|H]; auto.
    + left. congruence.
    + left. congruence.
  - rewrite IH. split; [auto|]. intros [H|H]; [discriminate|exact H].
Qed.

Lemma group_keys_sorted (gdf : list group_bbox_creator.Row) :
  StronglySorted Z.lt (group_bbox_creator.group_keys gdf).
Proof.
  unfold group_bbox_creator.group_keys, group_bbox_creator.keys_of.
  induction gdf as [|r rest IH]; simpl; [constructor|].
  destruct (group_bbox_creator.group r) as [j|]; simpl; [|exact IH].
  apply insert_key_sorted. exact IH.
Qed.

Lemma has_key_spec (k : Z) (r : group_bbox_creator.Row) :
  group_bbox_creator.has_key k r = true
  <-> group_bbox_creator.group r = Some k.
Proof.
  unfold group_bbox_creator.has_key.
  destruct (group_bbox_creator.group r) as [j|].
  - rewrite Z.eqb_eq. split; congruence.
  - split; discriminate.
Qed.

Lemma encompasses_refl (B : Box) : group_bbox_creator.encompasses B B.
Proof.
  destruct B as [[[x0 y0] x1] y1]. simpl. repeat split; apply Qle_refl.
Qed.

Lemma encompasses_trans (A B C : Box) :
  group_bbox_creator.encompasses A B -> group_bbox_creator.encompasses B C ->
  group_bbox_creator.encompasses A C.
Proof.
  destruct A as [[[a0 a1] a2] a3], B as [[[b0 b1] b2] b3],
    C as [[[c0 c1] c2] c3]. simpl. intros (? & ? & ? & ?) (? & ? & ? & ?).
  repeat split; lra.
Qed.

Lemma union_bounds_encompasses (B C : Box) :
  group_bbox_creator.encompasses (group_bbox_creator.union_bounds B C) B /\
  group_bbox_creator.encompasses (group_bbox_creator.union_bounds B C) C.
Proof.
  destruct B as [[[x0 y0] x1] y1], C as [[[u0 v0] u1] v1]. simpl.
  repeat split; first [apply Q.le_min_l | apply Q.le_min_r
                      | apply Q.le_max_l | apply Q.le_max_r].
Qed.

Lemma fold_union_encompasses (boxes : list Box) (B : Box) :
  let E := fold_left group_bbox_creator.union_bounds boxes B in
  group_bbox_creator.encompasses E B /\
  Forall (group_bbox_creator.encompasses E) boxes.
Proof.
  revert B. induction boxes as [|C rest IH]; intro B; simpl.
  - split; [apply encompasses_refl|constructor].
  - destruct (IH (group_bbox_creator.union_bounds B C)) as [H1 H2].
    destruct (union_bounds_encompasses B C) as [U1 U2].
    split; [|constructor; [|exact H2]];
      eapply encompasses_trans; eauto.
Qed.

(** The rows of the dissolved table, key by key. *)
Lemma dissolve_In (gdf : list group_bbox_creator.Row)
    (out : group_bbox_creator.Row) :
  In out (group_bbox_creator.dissolve gdf) <->
  exists k r rest,
    filter (group_bbox_creator.has_key k) gdf = r :: rest /\
    out = group_bbox_creator.mkRow (Some k)
            (fold_left group_bbox_creator.union_bounds
               (map group_bbox_creator.row_bounds rest)
               (group_bbox_creator.row_bounds r)).
Proof.
  unfold group_bbox_creator.dissolve. rewrite in_flat_map. split.
  - intros (k & Hk & Hin).
    destruct (filter (group_bbox_creator.has_key k) gdf)
      as [|r rest] eqn:F; [contradiction|].
    destruct Hin as [<-|[]]. exists k, r, rest. split; [exact F|].
    reflexivity.
  - intros (k & r & rest & F & E).
    exists k. split.
    + apply group_keys_In. apply in_map_iff. exists r.
      assert (Hr : In r (filter (group_bbox_creator.has_key k) gdf))
        by (rewrite F; left; reflexivity).
      apply filter_In in Hr. destruct Hr as [Hr Hk].
      apply has_key_spec in Hk. split; assumption.
    + rewrite F. left. symmetry. exact E.
Qed.

(** Every feature whose group field has a value is encompassed by the box
    of its group: the saved table has a row with that value whose box
    contains the feature's bounds.  A feature whose group field is null
    has no box: no row of the saved table has a null group. *)
Theorem group_box_encompasses_members (gdf : list group_bbox_creator.Row)
    (r : group_bbox_creator.Row) :
  In r gdf ->
  let saved :=
    group_bbox_creator.create_grouped_axis_aligned_bounding_boxes gdf in
  match group_bbox_creator.group r with
  | Some k =>
      exists out,
        In out saved /\
        group_bbox_creator.group out = Some k /\
        group_bbox_creator.encompasses (group_bbox_creator.row_bounds out)
                                       (group_bbox_creator.row_bounds r)
  | None =>
      forall out, In out saved -> group_bbox_creator.group out <> None
  end.
Proof.
  intros Hr saved. subst saved.
  unfold group_bbox_creator.create_grouped_axis_aligned_bounding_boxes.
  destruct (group_bbox_creator.group r) as [k|] eqn:G.
  - assert (Hf : In r (filter (group_bbox_creator.has_key k) gdf)).
    { apply filter_In. split; [exact Hr|]. apply has_key_spec. exact G. }
    destruct (filter (group_bbox_creator.has_key k) gdf)
      as [|r0 rest] eqn:F; [contradiction|].
    set (E := fold_left group_bbox_creator.union_bounds
                (map group_bbox_creator.row_bounds rest)
                (group_bbox_creator.row_bounds r0)).
    exists (group_bbox_creator.mkRow (Some k) E).
    split; [|split; [reflexivity|]].
    + apply in_map_iff.
      exists (group_bbox_creator.mkRow (Some k) E).
      split; [reflexivity|]. apply dissolve_In.
      exists k, r0, rest. split; [exact F|reflexivity].
    + simpl.
      destruct (fold_union_encompasses
                  (map group_bbox_creator.row_bounds rest)
                  (group_bbox_creator.row_bounds r0)) as [H0 Hrest].
      fold E in H0, Hrest. destruct Hf as [<-|Hf]; [exact H0|].
      rewrite Forall_forall in Hrest. apply Hrest. apply in_map. exact Hf.
  - intros out Hout. apply in_map_iff in Hout.
    destruct Hout as (d & <- & Hd). apply dissolve_In in Hd.
    destruct Hd as (k & r0 & rest & _ & ->). discriminate.
Qed.

Lemma group_box_encompasses_members_witness :
  (exists out,
     In out (group_bbox_creator.create_grouped_axis_aligned_bounding_boxes
               MoreExamples.grouped_features) /\
     group_bbox_creator.group out = Some 7%Z /\
     group_bbox_creator.encompasses (group_bbox_creator.row_bounds out)
                                    (1, -1, 5, 1)) /\
  (forall out,
     In out (group_bbox_creator.create_grouped_axis_aligned_bounding_boxes
               MoreExamples.grouped_features) ->
     group_bbox_creator.group out <> None).
Proof.
  split.
  - apply (group_box_encompasses_members MoreExamples.grouped_features
             (group_bbox_creator.mkRow (Some 7%Z) (1, -1, 5, 1))).
    simpl. auto.
  - apply (group_box_encompasses_members MoreExamples.grouped_features
             (group_bbox_creator.mkRow None (20, 20, 21, 21))).
    simpl. auto.
Defined.

Lemma dissolve_groups (gdf : list group_bbox_creator.Row) (keys : list Z) :
  Forall (fun k => In (Some k) (map group_bbox_creator.group gdf)) keys ->
  map group_bbox_creator.group
      (flat_map
         (fun k =>
            match filter (group_bbox_creator.has_key k) gdf with
            | [] => []
            | r :: rest =>
                [group_bbox_creator.mkRow (Some k)
                   (fold_left group_bbox_creator.union_bounds
                      (map group_bbox_creator.row_bounds rest)
                      (group_bbox_creator.row_bounds r))]
            end)
         keys)
  = map Some keys.
Proof.
  intro H. induction H as [|k keys Hk Hkeys IH]; simpl; [reflexivity|].
  apply in_map_iff in Hk. destruct Hk as (r & Hg & Hr).
  assert (Hf : In r (filter (group_bbox_creator.has_key k) gdf)).
  { apply filter_In. split; [exact Hr|]. apply has_key_spec. exact Hg. }
  destruct (filter (group_bbox_creator.has_key k) gdf)
    as [|r0 rest]; [contradiction|].
  simpl. f_equal. exact IH.
Qed.

(** The saved table has exactly one row per value of the group field that
    occurs in the input, none for the null value, and its rows are in
    increasing order of that value. *)
Theorem one_box_per_group (gdf : list group_bbox_creator.Row) :
  let saved :=
    group_bbox_creator.create_grouped_axis_aligned_bounding_boxes gdf in
  exists keys,
    map group_bbox_creator.group saved = map Some keys /\
    StronglySorted Z.lt keys /\
    NoDup keys /\
    forall k, In k keys <-> In (Some k) (map group_bbox_creator.group gdf).
Proof.
  intro saved. exists (group_bbox_creator.group_keys gdf).
  pose proof (group_keys_sorted gdf) as Hs.
  split; [|split; [exact Hs|split]].
  - unfold saved,
      group_bbox_creator.create_grouped_axis_aligned_bounding_boxes.
    rewrite map_map. simpl. unfold group_bbox_creator.dissolve.
    apply dissolve_groups. apply Forall_forall. intros k Hk.
    apply group_keys_In. exact Hk.
  - assert (N : forall l, StronglySorted Z.lt l -> NoDup l).
    { intros l Hl. induction Hl as [|k keys Hkeys IH Hk]; constructor;
        [|exact IH].
      intro Hin. rewrite Forall_forall in Hk. specialize (Hk k Hin). lia. }
    apply N. exact Hs.
  - intro k. apply group_keys_In.
Qed.

Lemma fold_union_attained (boxes : list Box) (B : Box) :
  let '(x0, y0, x1, y1) :=
    fold_left group_bbox_creator.union_bounds boxes B in
  (exists b, In b (B :: boxes) /\ fst (fst (fst b)) == x0) /\
  (exists b, In b (B :: boxes) /\ snd (fst (fst b)) == y0) /\
  (exists b, In b (B :: boxes) /\ snd (fst b) == x1) /\
  (exists b, In b (B :: boxes) /\ snd b == y1).
Proof.
  revert B. induction boxes as [|C rest IH]; intro B; simpl.
  - destruct B as [[[x0 y0] x1] y1].
    repeat split; exists (x0, y0, x1, y1); simpl; split; auto; reflexivity.
  - specialize (IH (group_bbox_creator.union_bounds B C)).
    destruct (fold_left group_bbox_creator.union_bounds rest
                (group_bbox_creator.union_bounds B C))
      as [[[x0 y0] x1] y1].
    destruct B as [[[b0 b1] b2] b3], C as [[[c0 c1] c2] c3]. simpl in IH.
    destruct IH as ((p & Hp & Ep) & (q & Hq & Eq) & (r & Hr & Er)
                    & (t & Ht & Et)).
    repeat split.
    + destruct Hp as [<-|Hp]; [|exists p; split; [auto|exact Ep]].
      simpl in Ep. destruct (Q.min_spec b0 c0) as [[_ M]|[_ M]].
      * exists (b0, b1, b2, b3). split; [auto|]. simpl. rewrite <- Ep, M.
        reflexivity.
      * exists (c0, c1, c2, c3). split; [auto|]. simpl. rewrite <- Ep, M.
        reflexivity.
    + destruct Hq as [<-|Hq]; [|exists q; split; [auto|exact Eq]].
      simpl in Eq. destruct (Q.min_spec b1 c1) as [[_ M]|[_ M]].
      * exists (b0, b1, b2, b3). split; [auto|]. simpl. rewrite <- Eq, M.
        reflexivity.
      * exists (c0, c1, c2, c3). split; [auto|]. simpl. rewrite <- Eq, M.
        reflexivity.
    + destruct Hr as [<-|Hr]; [|exists r; split; [auto|exact Er]].
      simpl in Er. destruct (Q.max_spec b2 c2) as [[_ M]|[_ M]].
      * exists (c0, c1, c2, c3). split; [auto|]. simpl. rewrite <- Er, M.
        reflexivity.
      * exists (b0, b1, b2, b3). split; [auto|]. simpl. rewrite <- Er, M.
        reflexivity.
    + destruct Ht as [<-|Ht]; [|exists t; split; [auto|exact Et]].
      simpl in Et. destruct (Q.max_spec b3 c3) as [[_ M]|[_ M]].
      * exists (c0, c1, c2, c3). split; [auto|]. simpl. rewrite <- Et, M.
        reflexivity.
      * exists (b0, b1, b2, b3). split; [auto|]. simpl. rewrite <- Et, M.
        reflexivity.
Qed.

(** The box of a group is tight: each of its four sides is the side of a
    feature of that group. *)
Theorem group_box_is_tight (gdf : list group_bbox_creator.Row)
    (out : group_bbox_creator.Row) :
  In out (group_bbox_creator.create_grouped_axis_aligned_bounding_boxes gdf)
  ->
  let member (r : group_bbox_creator.Row) :=
    In r gdf /\ group_bbox_creator.group r = group_bbox_creator.group out in
  let '(x0, y0, x1, y1) := group_bbox_creator.row_bounds out in
  (exists r, member r /\
             fst (fst (fst (group_bbox_creator.row_bounds r))) == x0) /\
  (exists r, member r /\
             snd (fst (fst (group_bbox_creator.row_bounds r))) == y0) /\
  (exists r, member r /\
             snd (fst (group_bbox_creator.row_bounds r)) == x1) /\
  (exists r, member r /\ snd (group_bbox_creator.row_bounds r) == y1).
Proof.
  unfold group_bbox_creator.create_grouped_axis_aligned_bounding_boxes.
  intro Hin. apply in_map_iff in Hin. destruct Hin as (d & <- & Hd).
  simpl. apply dissolve_In in Hd. destruct Hd as (k & r0 & rest & F & E).
  assert (M : forall b,
    In b (group_bbox_creator.row_bounds r0
          :: map group_bbox_creator.row_bounds rest) ->
    exists r, (In r gdf /\ group_bbox_creator.group r = Some k) /\
              group_bbox_creator.row_bounds r = b).
  { intros b Hb.
    assert (Hb' : In b (map group_bbox_creator.row_bounds (r0 :: rest)))
      by exact Hb.
    apply in_map_iff in Hb'. destruct Hb' as (r & <- & Hr).
    rewrite <- F in Hr. apply filter_In in Hr. destruct Hr as [Hr Hg].
    apply has_key_spec in Hg.
    exists r. split; [split; [exact Hr|exact Hg]|reflexivity]. }
  pose proof (fold_union_attained (map group_bbox_creator.row_bounds rest)
                (group_bbox_creator.row_bounds r0)) as A.
  rewrite E. simpl.
  destruct (fold_left group_bbox_creator.union_bounds
              (map group_bbox_creator.row_bounds rest)
              (group_bbox_creator.row_bounds r0)) as [[[x0 y0] x1] y1].
  destruct A as ((p & Hp & Ep) & (q & Hq & Eq) & (r & Hr & Er)
                 & (t & Ht & Et)).
  destruct (M p Hp) as (rp & Mp & <-). destruct (M q Hq) as (rq & Mq & <-).
  destruct (M r Hr) as (rr & Mr & <-). destruct (M t Ht) as (rt & Mt & <-).
  repeat split; eauto.
Qed.

Lemma group_box_is_tight_witness :
  let out := group_bbox_creator.mkRow (Some 7%Z) (0, -1, 5, 2) in
  let member (r : group_bbox_creator.Row) :=
    In r MoreExamples.grouped_features /\
    group_bbox_creator.group r = group_bbox_creator.group out in
  let '(x0, y0, x1, y1) := group_bbox_creator.row_bounds out in
  (exists r, member r /\
             fst (fst (fst (group_bbox_creator.row_bounds r))) == x0) /\
  (exists r, member r /\
             snd (fst (fst (group_bbox_creator.row_bounds r))) == y0) /\
  (exists r, member r /\
             snd (fst (group_bbox_creator.row_bounds r)) == x1) /\
  (exists r, member r /\ snd (group_bbox_creator.row_bounds r) == y1).
Proof.
  apply (group_box_is_tight MoreExamples.grouped_features
           (group_bbox_creator.mkRow (Some 7%Z) (0, -1, 5, 2))).
  vm_compute. right. left. reflexivity.
Defined.

(** ** File names *)

Lemma prefix_app_self (old rest : String.string) :
  String.prefix old (String.append old rest) = true.
Proof.
  induction old as [|c old IH]; simpl.
  - destruct rest; reflexivity.
  - destruct (Ascii.ascii_dec c c); [exact IH|contradiction].
Qed.

Lemma prefix_app_long (old x rest : String.string) :
  (String.length old <= String.length x)%nat ->
  String.prefix old (String.append x rest) = String.prefix old x.
Proof.
  revert x. induction old as [|c old IH]; intros x H; simpl.
  - destruct x; destruct rest; reflexivity.
  - destruct x as [|d x]; simpl in *; [lia|].
    destruct (Ascii.ascii_dec c d); [|reflexivity]. apply IH. lia.
Qed.

Lemma replace_from_skip (old new s rest : String.string) :
  pystr.replace_from old new (String.length s) (String.append s rest)
  = pystr.replace_from old new 0 rest.
Proof.
  induction s as [|c s IH]; simpl; [|exact IH].
  destruct rest; reflexivity.
Qed.

Lemma length_append (s t : String.string) :
  String.length (String.append s t) = (String.length s + String.length t)%nat.
Proof.
  induction s as [|c s IH]; simpl; [reflexivity|]. rewrite IH. reflexivity.
Qed.

(** [replace] rewrites the first occurrence of a non-empty [old] and goes
    on after it. *)
Lemma replace_first_occurrence (old new a b : String.string) :
  old <> String.EmptyString ->
  pystr.find old (String.append a old) = Some (String.length a) ->
  pystr.replace old new (String.append a (String.append old b))
  = String.append a (String.append new (pystr.replace old new b)).
Proof.
  intros Hne. unfold pystr.replace. induction a as [|ch a IH]; intro Hfind.
  - simpl. destruct old as [|c old]; [contradiction|].
    change (String.append (String.String c old) b)
      with (String.String c (String.append old b)).
    cbn [pystr.replace_from].
    change (String.String c (String.append old b))
      with (String.append (String.String c old) b).
    rewrite prefix_app_self. f_equal.
    cbn [String.length]. rewrite Nat.sub_succ, Nat.sub_0_r.
    apply replace_from_skip.
  - change (String.append (String.String ch a) (String.append old b))
      with (String.String ch (String.append a (String.append old b))).
    change (String.append (String.String ch a) old)
      with (String.String ch (String.append a old)) in Hfind.
    cbn [pystr.find] in Hfind. cbn [pystr.replace_from].
    destruct (String.prefix old (String.String ch (String.append a old)))
      eqn:P; [discriminate|].
    assert (P' : String.prefix old
                   (String.String ch
                      (String.append a (String.append old b))) = false).
    { rewrite <- P.
      change (String.String ch (String.append a (String.append old b)))
        with (String.append (String.String ch a) (String.append old b)).
      replace (String.append (String.String ch a) (String.append old b))
        with (String.append (String.append (String.String ch a) old) b).
      - apply prefix_app_long. simpl. rewrite length_append. lia.
      - simpl. f_equal. clear. induction a as [|c a IH]; simpl;
          [reflexivity|]. rewrite IH. reflexivity. }
    rewrite P'. simpl. f_equal. apply IH.
    destruct (pystr.find old (String.append a old)) as [i|];
      simpl in Hfind; [|discriminate].
    injection Hfind as ->. reflexivity.
Qed.

(** The PNG written by [main] of tif2png.py is named after the TIFF with
    its first [.tif] turned into [.png], and the rest of the name treated
    the same way: a name whose only [.tif] is its ending gets the ending
    [.png], and a [.tif] inside the name is rewritten as well. *)
Theorem png_file_name_rewrites_every_tif (stem rest : String.string) :
  pystr.find ".tif"%string (String.append stem ".tif"%string) = Some (String.length stem) ->
  png_file_name (String.append stem (String.append ".tif"%string rest))
  = String.append stem (String.append ".png"%string (png_file_name rest)) /\
  png_file_name (String.append stem ".tif"%string) = String.append stem ".png"%string.
Proof.
  intro H. unfold png_file_name. split.
  - apply replace_first_occurrence; [discriminate|exact H].
  - pose proof (replace_first_occurrence ".tif"%string ".png"%string stem
                  String.EmptyString) as R.
    simpl in R. apply R; [discriminate|exact H].
Qed.

Lemma png_file_name_rewrites_every_tif_witness :
  png_file_name (String.append "tile_3"%string (String.append ".tif"%string ".tif"%string))
  = String.append "tile_3"%string (String.append ".png"%string (png_file_name ".tif"%string)) /\
  png_file_name (String.append "tile_3"%string ".tif"%string) = String.append "tile_3"%string ".png"%string.
Proof.
  apply (png_file_name_rewrites_every_tif "tile_3"%string ".tif"%string). reflexivity.
Defined.

Lemma endswith_app (stem ext : String.string) :
  pystr.endswith (String.append stem ext) ext = true.
Proof.
  induction stem as [|c stem IH].
  - change (String.append String.EmptyString ext) with ext.
    destruct ext as [|d ext]; [reflexivity|].
    cbn [pystr.endswith]. rewrite String.eqb_refl. reflexivity.
  - change (String.append (String.String c stem) ext)
      with (String.String c (String.append stem ext)).
    cbn [pystr.endswith].
    destruct (String.eqb (String.String c (String.append stem ext)) ext);
      [reflexivity|exact IH].
Qed.

Lemma rfind_dot_tif (stem : String.string) :
  pystr.rfind_dot (String.append stem ".tif"%string) = Some (String.length stem).
Proof.
  induction stem as [|c stem IH]; simpl; [reflexivity|].
  rewrite IH. reflexivity.
Qed.

Lemma substring_app_stem (stem rest : String.string) :
  String.substring 0 (String.length stem) (String.append stem rest) = stem.
Proof.
  induction stem as [|c stem IH]; simpl.
  - destruct rest; reflexivity.
  - rewrite IH. reflexivity.
Qed.

(** For a directory entry [stem.tif], [main] of
    tif_shp_to_yolo_png_converter.py reads [stem.shp] and writes
    [stem.png] and [stem.txt]; when [stem] is empty or made of dots only,
    the whole entry is the base name and the files are [stem.tif.shp],
    [stem.tif.png] and [stem.tif.txt]. *)
Theorem converter_file_names_of_tif (stem : String.string) :
  let base_name :=
    if pystr.all_dots stem then String.append stem ".tif"%string else stem in
  converter_file_names (String.append stem ".tif"%string)
  = Some (String.append base_name ".shp"%string,
          String.append base_name ".png"%string,
          String.append base_name ".txt"%string).
Proof.
  unfold converter_file_names, pystr.splitext.
  rewrite endswith_app, rfind_dot_tif, substring_app_stem.
  destruct (pystr.all_dots stem); reflexivity.
Qed.
